(** * Offline Tierlist: a shallow embedding of the tierlist page's script
    and of the duplicate-removal command-line utility, both found in
    [src/util/remove_duplicates.js].

    The page keeps its state in the DOM: a title label, a [.tierlist] div of
    [.row] divs (header label + colour, a [.items] span of [span.item]
    wrappers around [.item-container]s), and the untiered [section.images]
    whose children are [.item-container]s, wrapped in a [span.item] once
    they have been dropped there by the drag-and-drop handler.  The model
    below keeps exactly that structure. *)

From Stdlib Require Import ZArith Lia List Bool Ascii String.
From Stdlib Require Import Numbers.DecimalString Sorting.Permutation Sorting.Sorted.
Import ListNotations.
Open Scope string_scope.
Set Warnings "-register-all".

(* ================================================================== *)
(** ** JavaScript strings *)

(** Characters are code units; [toLowerCase] and [trim] follow the
    ECMAScript tables restricted to the Latin-1 range that [ascii] covers. *)
Module JsString.

Definition is_ws (c : ascii) : bool :=
  let n := nat_of_ascii c in
  (Nat.eqb n 9 || Nat.eqb n 10 || Nat.eqb n 11 || Nat.eqb n 12 ||
   Nat.eqb n 13 || Nat.eqb n 32 || Nat.eqb n 160)%bool.

Fixpoint trim_start (s : string) : string :=
  match s with
  | EmptyString => EmptyString
  | String c t => if is_ws c then trim_start t else s
  end.

Fixpoint rev_str (s : string) (acc : string) : string :=
  match s with
  | EmptyString => acc
  | String c t => rev_str t (String c acc)
  end.

(** [String.prototype.trim] *)
Definition trim (s : string) : string :=
  rev_str (trim_start (rev_str (trim_start s) EmptyString)) EmptyString.

Definition lower_char (c : ascii) : ascii :=
  let n := nat_of_ascii c in
  if ((65 <=? n) && (n <=? 90))%nat
     || ((192 <=? n) && (n <=? 222) && negb (Nat.eqb n 215))%nat
  then ascii_of_nat (n + 32) else c.

(** [String.prototype.toLowerCase] *)
Fixpoint to_lower (s : string) : string :=
  match s with
  | EmptyString => EmptyString
  | String c t => String (lower_char c) (to_lower t)
  end.

(** [String.prototype.includes]: is [needle] a substring of [hay]? *)
Fixpoint includes (hay needle : string) : bool :=
  if String.prefix needle hay then true
  else match hay with
       | EmptyString => false
       | String _ t => includes t needle
       end.

(** [s.substr(0, n)] *)
Definition substr0 (s : string) (n : nat) : string := substring 0 n s.

(** [s.slice(1)] *)
Definition slice1 (s : string) : string :=
  match s with EmptyString => EmptyString | String _ t => t end.

(** [String.prototype.endsWith] *)
Definition ends_with (s suffix : string) : bool :=
  let n := String.length s in
  let m := String.length suffix in
  Nat.leb m n && String.eqb (substring (n - m) m s) suffix.

(** The value of a character as a digit, 36 when it is none ([0-9],
    [a-z], [A-Z]). *)
Definition digit_value (c : ascii) : Z :=
  let n := Z.of_nat (nat_of_ascii c) in
  if ((48 <=? n) && (n <=? 57))%Z then (n - 48)%Z
  else if ((97 <=? n) && (n <=? 122))%Z then (n - 87)%Z
  else if ((65 <=? n) && (n <=? 90))%Z then (n - 55)%Z
  else 36%Z.

(** The longest prefix of radix-[radix] digits, read as a number;
    [None] when there is no digit. *)
Fixpoint digits_value (radix : Z) (s : string) (acc : option Z) : option Z :=
  match s with
  | EmptyString => acc
  | String c t =>
      if (digit_value c <? radix)%Z
      then digits_value radix t
             (Some (radix * match acc with Some a => a | None => 0 end + digit_value c)%Z)
      else acc
  end.

(** [parseInt(s)] with no radix: leading white space, one sign, a [0x] or
    [0X] prefix for radix 16, then the longest run of digits; [None] is
    [NaN].  The value is the exact integer, which the double [parseInt]
    returns below 2^53. *)
Definition parseInt (s : string) : option Z :=
  let s1 := trim_start s in
  let '(sign, s2) :=
    match s1 with
    | String c t =>
        if Ascii.eqb c "-" then ((-1)%Z, t)
        else if Ascii.eqb c "+" then (1%Z, t) else (1%Z, s1)
    | EmptyString => (1%Z, s1)
    end in
  let '(radix, s3) :=
    match s2 with
    | String z (String x t) =>
        if Ascii.eqb z "0" && (Ascii.eqb x "x" || Ascii.eqb x "X")
        then (16%Z, t) else (10%Z, s2)
    | _ => (10%Z, s2)
    end in
  option_map (Z.mul sign) (digits_value radix s3 None).

End JsString.

(* ================================================================== *)
(** ** JSON values as produced by [JSON.parse] *)

(** Numbers are the integers of the JSON text (the files only carry
    strings, arrays and objects). Objects keep their keys in order. *)
Inductive json : Type :=
| JNull
| JBool (b : bool)
| JNum (n : Z)
| JStr (s : string)
| JArr (l : list json)
| JObj (kvs : list (string * json)).

(** Property access [v.k]; [None] is [undefined]. *)
Fixpoint assoc (k : string) (kvs : list (string * json)) : option json :=
  match kvs with
  | [] => None
  | (k', v) :: t => if String.eqb k k' then Some v else assoc k t
  end.

Definition get_field (v : json) (k : string) : option json :=
  match v with JObj kvs => assoc k kvs | _ => None end.

(** JavaScript truthiness of a (possibly [undefined]) value. *)
Definition truthy (v : option json) : bool :=
  match v with
  | None | Some JNull => false
  | Some (JBool b) => b
  | Some (JNum n) => negb (Z.eqb n 0)
  | Some (JStr s) => negb (String.eqb s "")
  | Some (JArr _) | Some (JObj _) => true
  end.

Definition num_to_string (n : Z) : string :=
  NilEmpty.string_of_int (Z.to_int n).

(** [String(v)] as used by the [textContent]/[innerText]/[src] setters. *)
Fixpoint js_to_string (v : json) : string :=
  match v with
  | JNull => "null"
  | JBool b => if b then "true" else "false"
  | JNum n => num_to_string n
  | JStr s => s
  | JArr l =>
      (fix join (l : list json) : string :=
         match l with
         | [] => ""
         | [x] => match x with JNull => "" | _ => js_to_string x end
         | x :: t =>
             (match x with JNull => "" | _ => js_to_string x end)
               ++ "," ++ join t
         end) l
  | JObj _ => "[object Object]"
  end.

(** The [innerText] setter: [null] becomes the empty string,
    [undefined] the string ["undefined"]. *)
Definition inner_text_of (v : option json) : string :=
  match v with
  | None => "undefined"
  | Some JNull => ""
  | Some x => js_to_string x
  end.

(** [for (x of v)]: [None] when [v] is not iterable (a [TypeError]). *)
Fixpoint chars_of (s : string) : list json :=
  match s with
  | EmptyString => []
  | String c t => JStr (String c EmptyString) :: chars_of t
  end.

Definition for_of (v : json) : option (list json) :=
  match v with
  | JArr l => Some l
  | JStr s => Some (chars_of s)
  | _ => None
  end.

(** [for (k in v)] followed by [v[k]]: the enumerable values of [v].
    Own keys of a parsed object are listed in the order of the text (the
    engine's integer-keys-first order is not modelled). *)
Definition for_in_values (v : option json) : list json :=
  match v with
  | Some (JArr l) => l
  | Some (JStr s) => chars_of s
  | Some (JObj kvs) => map snd kvs
  | _ => []
  end.

(* ================================================================== *)
(** ** Colours: [rgb_to_hex] and the header's [style.backgroundColor] *)

Definition hex_digits : string := "0123456789abcdef".

Definition hex_char (d : Z) : ascii :=
  match String.get (Z.to_nat d) hex_digits with Some c => c | None => "0"%char end.

(** [n.toString(16)] for a non-negative integer [n] (fuel bounds the
    number of digits; 64 covers every JavaScript number). *)
Fixpoint to_hex_aux (fuel : nat) (n : Z) (acc : string) : string :=
  match fuel with
  | O => acc
  | S f =>
      let acc' := String (hex_char (n mod 16)) acc in
      if (n <? 16)%Z then acc' else to_hex_aux f (n / 16)%Z acc'
  end.

Definition to_hex (n : Z) : string := to_hex_aux 64 n EmptyString.

(** [function rgb_to_hex(r, g, b)]:
    ["#" + (1 << 24 | r << 16 | g << 8 | b).toString(16).slice(1)] *)
Definition rgb_to_hex (r g b : Z) : string :=
  String "#"
    (JsString.slice1
       (to_hex (Z.lor (Z.lor (Z.lor (Z.shiftl 1 24) (Z.shiftl r 16))
                             (Z.shiftl g 8)) b))).

(** The browser stores a header colour as an RGB triple and reports it as
    ["rgb(r, g, b)"]; [None] is an unset [style.backgroundColor]. *)
Definition rgb : Type := (Z * Z * Z)%type.

(** [save_tierlist] parses the reported string with
    [replace(/[^\d,]/g, '').split(',')]: for a set colour this yields the
    three components; for an unset one [r = ""] and [g], [b] are
    [undefined], all of which [<<] and [|] turn into 0. *)
Definition header_hex (c : option rgb) : string :=
  match c with
  | Some (r, g, b) => rgb_to_hex r g b
  | None => rgb_to_hex 0%Z 0%Z 0%Z
  end.

Definition hex_val (c : ascii) : option Z :=
  let n := Z.of_nat (nat_of_ascii c) in
  (if (48 <=? n) && (n <=? 57) then Some (n - 48)
   else if (97 <=? n) && (n <=? 102) then Some (n - 87)
   else if (65 <=? n) && (n <=? 70) then Some (n - 55)
   else None)%Z.

(** The CSS parser behind the [style.backgroundColor] setter, on the
    ["#rrggbb"] notation (the one the wire format uses and [rgb_to_hex]
    emits); other strings are treated as invalid, which leaves the
    property as it was. *)
Definition parse_hex_color (s : string) : option rgb :=
  match s with
  | String "#" (String a1 (String a0 (String b1 (String b0
      (String c1 (String c0 EmptyString)))))) =>
      match hex_val a1, hex_val a0, hex_val b1, hex_val b0,
            hex_val c1, hex_val c0 with
      | Some x1, Some x0, Some y1, Some y0, Some z1, Some z0 =>
          Some (16 * x1 + x0, 16 * y1 + y0, 16 * z1 + z0)%Z
      | _, _, _, _, _, _ => None
      end
  | _ => None
  end.

(** [header.style.backgroundColor = v]: [null] clears the property. *)
Definition set_background (cur : option rgb) (v : json) : option rgb :=
  match v with
  | JNull => None
  | _ => match parse_hex_color (js_to_string v) with
         | Some c => Some c
         | None => cur
         end
  end.

(** [TIER_COLORS] *)
Definition TIER_COLORS : list rgb :=
  [(255, 102, 102); (240, 167, 49); (244, 217, 91); (102, 255, 102);
   (88, 200, 244); (91, 118, 244); (244, 91, 237)]%Z.

Definition tier_color (i : nat) : rgb :=
  nth (i mod List.length TIER_COLORS) TIER_COLORS (0, 0, 0)%Z.

Definition MAX_NAME_LEN : nat := 200.

(* ================================================================== *)
(** ** The page's DOM *)

(** An [.item-container]: an [img.draggable] (its [src]) and a
    [span.item-label] (its [textContent]).  The page only builds items
    with [create_item_with_src_and_name]; [create_img_with_src] is never
    called, so no bare [img.draggable] items exist. *)
Record item := mkItem { src : string; name : string }.

(** A child of [section.images]: a bare [.item-container], or one wrapped
    in a [span.item] by the [drop] handler. *)
Inductive pool_entry :=
| Bare (it : item)
| Wrapped (it : item).

Definition entry_item (e : pool_entry) : item :=
  match e with Bare it | Wrapped it => it end.

(** A [.row]: header [label] text, header colour, and the [.items] span
    whose children are [span.item]s each holding one [.item-container]. *)
Record row := mkRow { row_label : string; row_color : option rgb;
                      row_items : list item }.

Record dom := mkDom { title : string; rows : list row;
                      pool : list pool_entry }.

Definition set_rows (d : dom) (rs : list row) : dom :=
  mkDom (title d) rs (pool d).
Definition set_pool (d : dom) (p : list pool_entry) : dom :=
  mkDom (title d) (rows d) p.

(** The tierlist as the spec's data model sees it: title, rows with their
    name, colour and items, and the untiered items. *)
Record document := mkDocument { doc_title : string;
                                doc_rows : list row;
                                doc_untiered : list item }.

Definition abstract (d : dom) : document :=
  mkDocument (title d) (rows d) (map entry_item (pool d)).

(* ================================================================== *)
(** ** List helpers for DOM child lists *)

(** [parent.insertBefore(x, children[n])]; a missing reference child
    ([n] past the end) appends. *)
Definition insert_at {A} (n : nat) (x : A) (l : list A) : list A :=
  firstn n l ++ x :: skipn n l.

(** [parent.removeChild(children[n])] *)
Definition remove_at {A} (n : nat) (l : list A) : list A :=
  firstn n l ++ skipn (S n) l.

Definition update_last {A} (f : A -> A) (l : list A) : list A :=
  match rev l with
  | [] => []
  | x :: t => rev (f x :: t)
  end.

Fixpoint mapi_from {A B} (f : nat -> A -> B) (i : nat) (l : list A) : list B :=
  match l with
  | [] => []
  | x :: t => f i x :: mapi_from f (S i) t
  end.

(* ================================================================== *)
(** ** Serialization: [save_tierlist] *)

Module Save.

(** An [.item-container] as [{src: img.src, name: label.textContent.trim()}]
    (for a [data:] URI the [img.src] getter returns the string as set). *)
Definition item_obj (it : item) : json :=
  JObj [("src", JStr (src it)); ("name", JStr (JsString.trim (name it)))].

(** One row: [querySelectorAll('.item-container')] gives the row's items
    in order; the fallback to bare [img.draggable] elements runs when none
    was found, and then finds none either. *)
Definition row_obj (r : row) : json :=
  JObj [("name", JStr (JsString.substr0 (row_label r) MAX_NAME_LEN));
        ("color", JStr (header_hex (row_color r)));
        ("imgs", JArr (map item_obj (row_items r)))].

(** [document.querySelectorAll('.images .item-container, .images
    img.draggable')] in document order: each pool item contributes its
    [.item-container] and then the [img.draggable] inside it. *)
Inductive pool_elem := PContainer (it : item) | PImg (it : item).

Definition untiered_imgs (p : list pool_entry) : list pool_elem :=
  flat_map (fun e => [PContainer (entry_item e); PImg (entry_item e)]) p.

(** The [forEach] body: an [.item-container] is pushed in object form, an
    [IMG] as its bare [src]. *)
Definition untiered_entry (x : pool_elem) : json :=
  match x with
  | PContainer it => item_obj it
  | PImg it => JStr (src it)
  end.

End Save.

(** [save_tierlist]: the object given to [JSON.stringify]; the [untiered]
    key is only added when the selector matched something. *)
Definition save_tierlist (d : dom) : json :=
  let elems := Save.untiered_imgs (pool d) in
  JObj ([("title", JStr (title d));
         ("rows", JArr (map Save.row_obj (rows d)))]
        ++ match elems with
           | [] => []
           | _ => [("untiered", JArr (map Save.untiered_entry elems))]
           end).

(* ================================================================== *)
(** ** Deserialization: [load_tierlist] and the import handler *)

(** A handler runs to completion or stops at an uncaught exception, with
    the DOM mutations made so far kept. *)
Inductive outcome := Done (d : dom) | Threw (d : dom).

Definition step := dom -> outcome.

Definition seq_step (f g : step) : step :=
  fun d => match f d with Done d' => g d' | Threw d' => Threw d' end.

Infix ";;" := seq_step (at level 61, right associativity).

Definition skip : step := Done.
Definition throw : step := Threw.
Definition modify (f : dom -> dom) : step := fun d => Done (f d).

Fixpoint for_each {A} (body : A -> step) (l : list A) : step :=
  match l with
  | [] => skip
  | x :: t => body x ;; for_each body t
  end.

(** One item entry of [imgs] or [untiered]. *)
Inductive entry_result := ESkip | ELoad (it : item) | EThrow.

Definition load_entry (v : json) : entry_result :=
  match v with
  | JStr s =>
      (* old format: just the image src *)
      ELoad (mkItem s "")
  | JNull =>
      (* typeof null === 'object', and null.src throws *)
      EThrow
  | JObj _ | JArr _ =>
      let s := get_field v "src" in
      if truthy s then
        let n := get_field v "name" in
        ELoad (mkItem (match s with Some x => js_to_string x | None => "" end)
                      (match n with
                       | Some x => if truthy n then js_to_string x else ""
                       | None => ""
                       end))
      else ESkip
  | _ => ESkip
  end.

Definition append_row (r : row) : step :=
  modify (fun d => set_rows d (rows d ++ [r])).

Definition push_last_row_item (it : item) : step :=
  modify (fun d => set_rows d (update_last
            (fun r => mkRow (row_label r) (row_color r) (row_items r ++ [it]))
            (rows d))).

Definition set_last_row_label (l : string) : step :=
  modify (fun d => set_rows d (update_last
            (fun r => mkRow l (row_color r) (row_items r)) (rows d))).

Definition set_last_row_color (v : json) : step :=
  modify (fun d => set_rows d (update_last
            (fun r => mkRow (row_label r) (set_background (row_color r) v)
                            (row_items r)) (rows d))).

(** [recompute_header_colors()] with no index: every row gets
    [TIER_COLORS[row_idx % TIER_COLORS.length]]. *)
Definition recompute_header_colors_all : step :=
  modify (fun d => set_rows d (mapi_from
            (fun i r => mkRow (row_label r) (Some (tier_color i)) (row_items r))
            0 (rows d))).

Definition push_pool (e : pool_entry) : step :=
  modify (fun d => set_pool d (pool d ++ [e])).

Definition load_row_entry (v : json) : step :=
  match load_entry v with
  | ESkip => skip
  | ELoad it => push_last_row_item it
  | EThrow => throw
  end.

Definition load_untiered_entry (v : json) : step :=
  match load_entry v with
  | ESkip => skip
  | ELoad it => push_pool (Bare it)
  | EThrow => throw
  end.

(** The body of [for (let idx in serialized_tierlist.rows)].  After
    [hard_reset_list] the [idx]-th row is created when the list holds
    [idx] rows, so [add_row] appends it (with no header colour yet). *)
Definition load_row (ser_row : json) : step :=
  match ser_row with
  | JNull => throw
  | _ =>
      append_row (mkRow (inner_text_of (get_field ser_row "name")) None []) ;;
      match get_field ser_row "imgs" with
      | None | Some JNull => skip
      | Some l => match for_of l with
                  | Some es => for_each load_row_entry es
                  | None => throw
                  end
      end ;;
      set_last_row_label (inner_text_of (get_field ser_row "name")) ;;
      match get_field ser_row "color" with
      | Some c => set_last_row_color c
      | None => recompute_header_colors_all
      end
  end.

Definition load_tierlist (ser : json) : step :=
  modify (fun d => mkDom (inner_text_of (get_field ser "title")) (rows d) (pool d)) ;;
  for_each load_row (for_in_values (get_field ser "rows")) ;;
  (let u := get_field ser "untiered" in
   if truthy u then
     match u with
     | Some l => match for_of l with
                 | Some es => for_each load_untiered_entry es
                 | None => throw
                 end
     | None => skip
     end
   else skip).

(** [hard_reset_list]: empties the rows and the untiered pool. *)
Definition hard_reset_list (d : dom) : dom := mkDom (title d) [] [].

(** The [import-input] [load] listener, given the value [JSON.parse]
    returned for the file's text. *)
Definition import_input (parsed : json) : step :=
  fun d =>
    if negb (truthy (Some parsed)) then Done d   (* alert("Failed to parse data") *)
    else load_tierlist parsed (hard_reset_list d).

(* ================================================================== *)
(** ** Row buttons: [add_row], [rm_row], [reset_row] *)

(** [add_row(index, name)]: a new row with an uncoloured header is
    inserted before [children[index]], or appended. *)
Definition add_row (index : nat) (nm : string) : step :=
  modify (fun d => set_rows d (insert_at index (mkRow nm None []) (rows d))).

(** [recompute_header_colors(idx)]; [rows[idx]] undefined throws. *)
Definition recompute_header_colors_at (idx : nat) : step :=
  fun d =>
    match nth_error (rows d) idx with
    | None => Threw d
    | Some r =>
        Done (set_rows d (firstn idx (rows d)
                ++ mkRow (row_label r) (Some (tier_color idx)) (row_items r)
                :: skipn (S idx) (rows d)))
    end.

(** [rm_row(idx)]: [reset_row] moves each [span.item]'s [.item-container]
    to the end of the untiered pool, in order, then the row is removed.
    [reset_row(undefined)] throws. *)
Definition rm_row (idx : nat) : step :=
  fun d =>
    match nth_error (rows d) idx with
    | None => Threw d
    | Some r =>
        Done (mkDom (title d) (remove_at idx (rows d))
                    (pool d ++ map Bare (row_items r)))
    end.

(** [reset_row(row)] for the row at [idx]: each item's container leaves
    its [span.item] for the end of the untiered pool, in order; the row
    stays, with no items. *)
Definition reset_row (idx : nat) : step :=
  fun d =>
    match nth_error (rows d) idx with
    | None => Threw d
    | Some r =>
        Done (mkDom (title d)
                (firstn idx (rows d) ++ mkRow (row_label r) (row_color r) []
                   :: skipn (S idx) (rows d))
                (pool d ++ map Bare (row_items r)))
    end.

(** [soft_reset_list()]: [reset_row] on every row, in order. *)
Definition soft_reset_list : step :=
  fun d => for_each reset_row (seq 0 (List.length (rows d))) d.

(** [file.name.replace(/\.[^/.]+$/, '')]: the leftmost [.] followed by at
    least one character, none of them [.] or [/], up to the end, is
    removed. *)
Fixpoint ext_tail (s : string) : bool :=
  match s with
  | EmptyString => true
  | String c t => negb (Ascii.eqb c ".") && negb (Ascii.eqb c "/") && ext_tail t
  end.

Fixpoint strip_extension (s : string) : string :=
  match s with
  | EmptyString => EmptyString
  | String c t =>
      if Ascii.eqb c "." && negb (String.eqb t "") && ext_tail t then EmptyString
      else String c (strip_extension t)
  end.

(** The [load] listener of a file read from [load-img-input]: the item,
    named after the file, goes to the end of the untiered pool. *)
Definition load_img_file (data_url file_name : string) : step :=
  push_pool (Bare (mkItem data_url (strip_extension file_name))).

(** The three row buttons; [confirmed] is the answer to [confirm(...)].
    The "add below" handler passes the [name] its [add_row] call was
    made with, captured by the closure: [nm] stands for it. *)
Inductive row_op :=
| ClickAddAbove (idx : nat)
| ClickAddBelow (idx : nat) (nm : string)
| ClickRemove (idx : nat) (confirmed : bool).

Definition btn_rm_click (idx : nat) (confirmed : bool) : step :=
  fun d =>
    if Nat.ltb (List.length (rows d)) 2 then Done d
    else match nth_error (rows d) idx with
         | None => Threw d
         | Some r =>
             if match row_items r with [] => true | _ => false end || confirmed
             then rm_row idx d
             else Done d
         end.

Definition click (op : row_op) : step :=
  match op with
  | ClickAddAbove idx => add_row idx "" ;; recompute_header_colors_at idx
  | ClickAddBelow idx nm =>
      add_row (S idx) nm ;; recompute_header_colors_at (S idx)
  | ClickRemove idx c => btn_rm_click idx c
  end.

(** An uncaught exception in a listener leaves the page running with the
    DOM as the handler left it. *)
Definition state_of (o : outcome) : dom :=
  match o with Done d | Threw d => d end.

Fixpoint run_clicks (ops : list row_op) (d : dom) : dom :=
  match ops with
  | [] => d
  | op :: t => run_clicks t (state_of (click op d))
  end.

Definition DEFAULT_TIERS : list string := ["S"; "A"; "B"; "C"; "D"; "E"; "F"].

(** The page's [load] listener: the default rows, then
    [recompute_header_colors()]; [title0] is the title label of the HTML. *)
Definition default_tierlist (title0 : string) : dom :=
  state_of ((for_each (fun p => add_row (fst p) (snd p))
               (combine (seq 0 7) DEFAULT_TIERS)
             ;; recompute_header_colors_all) (mkDom title0 [] [])).

(* ================================================================== *)
(** ** The drag-placement engine: [get_item_index] and the [drop] handler *)

Module Drag.

(** JavaScript values held by [old_item_index] and [target_item_index]. *)
Inductive jsval := JSNum (z : Z) | JSNull | JSUndefined | JSNaN.

Definition to_number (v : jsval) : option Z :=
  match v with JSNum z => Some z | JSNull => Some 0%Z | _ => None end.

(** [a < b] *)
Definition js_lt (a b : jsval) : bool :=
  match to_number a, to_number b with
  | Some x, Some y => (x <? y)%Z
  | _, _ => false
  end.

(** [a - 1] *)
Definition js_minus1 (a : jsval) : jsval :=
  match to_number a with Some x => JSNum (x - 1) | None => JSNaN end.

(** Which child [children[v]] names, if any. *)
Definition child_index (v : jsval) (len : nat) : option nat :=
  match v with
  | JSNum z => if (0 <=? z)%Z && (z <? Z.of_nat len)%Z then Some (Z.to_nat z) else None
  | _ => None
  end.

(** Elements of a row's [k]-th item: its [span.item], its
    [.item-container] and the [img.draggable] inside. *)
Inductive row_elem := ESpan (k : nat) | EContainer (k : nat) | EImg (k : nat).

Definition row_elem_eqb (a b : row_elem) : bool :=
  match a, b with
  | ESpan i, ESpan j | EContainer i, EContainer j | EImg i, EImg j => Nat.eqb i j
  | _, _ => false
  end.

(** [a.contains(b)] (inclusive). *)
Definition contains (a b : row_elem) : bool :=
  row_elem_eqb a b ||
  match a, b with
  | EContainer i, EImg j => Nat.eqb i j
  | ESpan i, EContainer j | ESpan i, EImg j => Nat.eqb i j
  | _, _ => false
  end.

Fixpoint find_index {A} (p : A -> bool) (l : list A) : option nat :=
  match l with
  | [] => None
  | x :: t => if p x then Some 0 else option_map S (find_index p t)
  end.

(** [rows[idx].querySelectorAll(".item-container, .item > img, .item img")]
    for a row of [n] items, in document order: the container and then the
    image of every item. *)
Definition item_list (n : nat) : list row_elem :=
  flat_map (fun k => [EContainer k; EImg k]) (seq 0 n).

(** [get_item_index(elem)] for an element of a row holding [n] items. *)
Definition get_item_index (n : nat) (elem : row_elem) : jsval :=
  let item_elem := match elem with
                   | EContainer k => ESpan k      (* elem.closest('.item') *)
                   | EImg k => EContainer k       (* elem.closest('.item-container') *)
                   | ESpan k => ESpan k
                   end in
  match find_index (fun x => row_elem_eqb x elem || contains x elem) (item_list n) with
  | Some i => JSNum (Z.of_nat i)
  | None =>
      match find_index (fun x => row_elem_eqb x item_elem || contains x elem)
                       (map ESpan (seq 0 n)) with
      | Some i => JSNum (Z.of_nat i)
      | None => JSNull
      end
  end.

(** What the pointer entered over a row's [k]-th item; a [.item-label]
    is replaced by its [.item-container] before [get_item_index]. *)
Inductive hovered := HSpan (k : nat) | HContainer (k : nat) | HImg (k : nat) | HLabel (k : nat).

Definition target_elem (h : hovered) : row_elem :=
  match h with
  | HSpan k => ESpan k
  | HContainer k | HLabel k => EContainer k
  | HImg k => EImg k
  end.

(** Drop surfaces and the parent node of their item list: a row's
    [.items] span sits in the row div, [section.images] in the bottom
    container. *)
Inductive container := CRow (r : nat) | CPool.
Inductive parent_node := NRowDiv (r : nat) | NBottom.

Definition parent_node_eqb (a b : parent_node) : bool :=
  match a, b with
  | NRowDiv i, NRowDiv j => Nat.eqb i j
  | NBottom, NBottom => true
  | _, _ => false
  end.

Definition items_parent (c : container) : parent_node :=
  match c with CRow r => NRowDiv r | CPool => NBottom end.

(** Detaching [dragged_image] (the [.item-container] at position [k] of
    [c]).  [old_item_row] is only set when the container sat in a
    [span.item] ("We were already in a tier"): it is the parent of the
    span's list. *)
Definition detach (d : dom) (c : container) (k : nat)
  : option (item * option parent_node * dom) :=
  match c with
  | CRow r =>
      match nth_error (rows d) r with
      | None => None
      | Some rw =>
          match nth_error (row_items rw) k with
          | None => None
          | Some it =>
              Some (it, Some (NRowDiv r),
                    set_rows d (firstn r (rows d)
                      ++ mkRow (row_label rw) (row_color rw) (remove_at k (row_items rw))
                      :: skipn (S r) (rows d)))
          end
      end
  | CPool =>
      match nth_error (pool d) k with
      | None => None
      | Some (Bare it) => Some (it, None, set_pool d (remove_at k (pool d)))
      | Some (Wrapped it) => Some (it, Some NBottom, set_pool d (remove_at k (pool d)))
      end
  end.

(** The same-row fix:
    [if (items_container.parentNode === old_item_row && old_item_index <
    target_item_index) target_item_index = target_item_index - 1]. *)
Definition adjusted_target (dest : container) (old_item_row : option parent_node)
           (old_item_index target_item_index : jsval) : jsval :=
  if match old_item_row with
     | Some p => parent_node_eqb (items_parent dest) p
     | None => false
     end && js_lt old_item_index target_item_index
  then js_minus1 target_item_index
  else target_item_index.

(** [items_container.insertBefore(td, items_container.children[t])], or
    [appendChild(td)] when the drop's target is the row itself. *)
Definition place {A} (target_is_row : bool) (t : jsval) (x : A) (l : list A) : list A :=
  if target_is_row then l ++ [x]
  else match child_index t (List.length l) with
       | Some n => insert_at n x l
       | None => l ++ [x]
       end.

(** The [drop] listener of [make_accept_drop(elem)] for the surface
    [dest]; [dragged] is where [dragged_image] sits ([None] when nothing is
    grabbed).  Returns the DOM and the new value of the closure's
    [target_item_index]. *)
Definition drop (d : dom) (dragged : option (container * nat)) (dest : container)
           (target_is_row : bool) (old_item_index target_item_index : jsval)
  : dom * jsval :=
  match dragged with
  | None => (d, target_item_index)
  | Some (c, k) =>
      match detach d c k with
      | None => (d, target_item_index)
      | Some (it, old_item_row, d1) =>
          let t := adjusted_target dest old_item_row old_item_index target_item_index in
          match dest with
          | CRow r =>
              match nth_error (rows d1) r with
              | None => (d, target_item_index)
              | Some rw =>
                  (set_rows d1 (firstn r (rows d1)
                     ++ mkRow (row_label rw) (row_color rw)
                              (place target_is_row t it (row_items rw))
                     :: skipn (S r) (rows d1)), t)
              end
          | CPool => (set_pool d1 (place target_is_row t (Wrapped it) (pool d1)), t)
          end
      end
  end.

End Drag.

(** The trash's [drop] listener: the grabbed container (with its
    [span.item], if it has one) is removed from the page. *)
Module Trash.

Definition trash_drop (d : dom) (dragged : option (Drag.container * nat)) : dom :=
  match dragged with
  | None => d
  | Some (c, k) =>
      match Drag.detach d c k with
      | Some (_, _, d1) => d1
      | None => d
      end
  end.

End Trash.

(* ================================================================== *)
(** ** The duplicate-removal utility ([remove_duplicates.js]) *)

Module Dedup.

Notation "x <- a ;; b" :=
  (match a with Some x => b | None => None end)
  (at level 60, right associativity, a at next level).

(** [normalizeName(name)]: [name.toLowerCase().trim()]; a name that is
    not a string has no [toLowerCase] and throws ([None]). *)
Definition normalizeName (v : json) : option string :=
  match v with
  | JStr s => Some (JsString.trim (JsString.to_lower s))
  | _ => None
  end.

(** [isDuplicate(name1, name2)] *)
Definition isDuplicate (name1 name2 : json) : option bool :=
  norm1 <- normalizeName name1 ;;
  norm2 <- normalizeName name2 ;;
  Some (if String.eqb norm1 norm2 then true
        else if Nat.ltb (String.length norm1) (String.length norm2)
        then JsString.includes norm2 norm1
        else if Nat.ltb (String.length norm2) (String.length norm1)
        then JsString.includes norm1 norm2
        else false).

Inductive location := LTier (rowIndex itemIndex : nat) | LUntiered (itemIndex : nat).

Definition location_eqb (a b : location) : bool :=
  match a, b with
  | LTier r i, LTier r' i' => Nat.eqb r r' && Nat.eqb i i'
  | LUntiered i, LUntiered i' => Nat.eqb i i'
  | _, _ => false
  end.

(** An [{entry, location}] record; [eid] is its position in the
    [entries] array and stands for the object's identity ([!==]). *)
Record dup_entry := mkEntry { entry : json; location_of : location; eid : nat }.

Definition entry_name (e : dup_entry) : json :=
  match get_field (entry e) "name" with Some n => n | None => JNull end.

(** The [if (item && typeof item === 'object' && item.name)] filter. *)
Definition collectable (item : json) : bool :=
  match item with
  | JObj _ => truthy (get_field item "name")
  | _ => false
  end.

Fixpoint number_from {A} (i : nat) (l : list A) : list (nat * A) :=
  match l with [] => [] | x :: t => (i, x) :: number_from (S i) t end.

(** [collectAllEntries(jsonData)] before the [eid]s are given: the rows'
    [imgs] then [untiered]; [row.imgs] of a [null] row throws. *)
Definition collect_located (jsonData : json) : option (list (json * location)) :=
  let rows_l := match get_field jsonData "rows" with Some (JArr l) => l | _ => [] end in
  let from_rows :=
    fold_right (fun '(rowIndex, row) acc =>
      acc' <- acc ;;
      match row with
      | JNull => None
      | _ => match get_field row "imgs" with
             | Some (JArr imgs) =>
                 Some (map (fun '(itemIndex, item) => (item, LTier rowIndex itemIndex))
                           (filter (fun p => collectable (snd p)) (number_from 0 imgs))
                       ++ acc')%list
             | _ => Some acc'
             end
      end) (Some []) (number_from 0 rows_l) in
  r <- from_rows ;;
  let u := match get_field jsonData "untiered" with
           | Some (JArr l) =>
               map (fun '(itemIndex, item) => (item, LUntiered itemIndex))
                   (filter (fun p => collectable (snd p)) (number_from 0 l))
           | _ => []
           end in
  Some (r ++ u)%list.

Definition collectAllEntries (jsonData : json) : option (list dup_entry) :=
  l <- collect_located jsonData ;;
  Some (map (fun '(i, (it, loc)) => mkEntry it loc i) (number_from 0 l)).

(** [for (const groupEntry of group) if (isDuplicate(...)) {...; break;}] *)
Fixpoint dup_of_group (group : list dup_entry) (e : dup_entry) : option bool :=
  match group with
  | [] => Some false
  | g :: t =>
      b <- isDuplicate (entry_name g) (entry_name e) ;;
      if b then Some true else dup_of_group t e
  end.

(** One pass of the [for (let j ...)] loop: the group, the processed
    set and [foundNew]. *)
Fixpoint scan (entries : list (nat * dup_entry)) (group : list dup_entry)
         (processed : list nat) (foundNew : bool)
  : option (list dup_entry * list nat * bool) :=
  match entries with
  | [] => Some (group, processed, foundNew)
  | (j, e) :: t =>
      if existsb (Nat.eqb j) processed then scan t group processed foundNew
      else b <- dup_of_group group e ;;
           if b then scan t (group ++ [e]) (processed ++ [j]) true
           else scan t group processed foundNew
  end.

(** [while (foundNew)]: every pass but the last adds an entry, so
    [length entries + 1] passes always suffice. *)
Fixpoint grow (fuel : nat) (entries : list (nat * dup_entry))
         (group : list dup_entry) (processed : list nat)
  : option (list dup_entry * list nat) :=
  match fuel with
  | O => Some (group, processed)
  | S f =>
      r <- scan entries group processed false ;;
      let '(g, p, found) := r in
      if found then grow f entries g p else Some (g, p)
  end.

(** [findDuplicateGroups(entries)] *)
Definition findDuplicateGroups (entries : list dup_entry) : option (list (list dup_entry)) :=
  let num := number_from 0 entries in
  let fuel := S (List.length entries) in
  r <- fold_left (fun acc '(i, e) =>
         st <- acc ;;
         let '(groups, processed) := st in
         if existsb (Nat.eqb i) processed then Some (groups, processed)
         else r <- grow fuel num [e] (processed ++ [i]) ;;
              let '(group, processed') := r in
              Some (if Nat.ltb 1 (List.length group) then (groups ++ [group])%list else groups,
                    processed'))
       num (Some ([] : list (list dup_entry), [] : list nat)) ;;
  Some (fst r).

(** [name.length], [undefined] for a name that is not a string. *)
Definition name_length (e : dup_entry) : option nat :=
  match entry_name e with JStr s => Some (String.length s) | _ => None end.

(** [keepShortestEntry(group)]: [reduce] keeps the earlier entry on ties. *)
Definition keepShortestEntry (group : list dup_entry) : option dup_entry :=
  match group with
  | [] => None   (* reduce of an empty array throws *)
  | g :: t =>
      Some (fold_left (fun shortest current =>
              match name_length current, name_length shortest with
              | Some a, Some b => if Nat.ltb a b then current else shortest
              | _, _ => shortest
              end) t g)
  end.

Fixpoint set_assoc (k : string) (v : json) (kvs : list (string * json)) : list (string * json) :=
  match kvs with
  | [] => []
  | (k', v') :: t => if String.eqb k k' then (k', v) :: t else (k', v') :: set_assoc k v t
  end.

Definition set_field (o : json) (k : string) (v : json) : json :=
  match o with JObj kvs => JObj (set_assoc k v kvs) | _ => o end.

Definition drop_marked (marked : list location) (mk : nat -> location) (l : list json) : list json :=
  map snd (filter (fun '(i, _) => negb (existsb (location_eqb (mk i)) marked))
                  (number_from 0 l)).

(** [removeDuplicatesFromTierlist(jsonData, duplicateGroups)]: the
    entries other than each group's kept one are spliced out by index. *)
Definition removeDuplicatesFromTierlist (jsonData : json) (groups : list (list dup_entry))
  : option json :=
  marked <- fold_right (fun group acc =>
              acc' <- acc ;;
              kept <- keepShortestEntry group ;;
              Some (map location_of (filter (fun e => negb (Nat.eqb (eid e) (eid kept))) group)
                    ++ acc')%list) (Some []) groups ;;
  let d1 := match get_field jsonData "rows" with
            | Some (JArr rs) =>
                set_field jsonData "rows" (JArr (map (fun '(rowIndex, row) =>
                  match get_field row "imgs" with
                  | Some (JArr imgs) =>
                      set_field row "imgs" (JArr (drop_marked marked (LTier rowIndex) imgs))
                  | _ => row
                  end) (number_from 0 rs)))
            | _ => jsonData
            end in
  Some (match get_field d1 "untiered" with
        | Some (JArr u) => set_field d1 "untiered" (JArr (drop_marked marked LUntiered u))
        | _ => d1
        end).

Definition dq : string := String (ascii_of_nat 34) EmptyString.

(** The structure checks of [loadJsonFile] after [JSON.parse]. *)
Definition validate (parsed : json) : string + json :=
  match parsed with
  | JObj _ | JArr _ =>
      match get_field parsed "rows" with
      | Some (JArr _) =>
          match get_field parsed "untiered" with
          | None | Some (JArr _) => inr parsed
          | Some _ => inl ("Invalid JSON: " ++ dq ++ "untiered" ++ dq
                           ++ " must be an array if present")
          end
      | _ => inl ("Invalid JSON: " ++ dq ++ "rows" ++ dq ++ " must be an array")
      end
  | _ => inl "Invalid JSON: root must be an object"
  end.

(** [countEntries(jsonData)]; [row.imgs] of a [null] row throws. *)
Definition countEntries (jsonData : json) : option nat :=
  let from_rows :=
    match get_field jsonData "rows" with
    | Some (JArr rs) =>
        fold_left (fun acc row =>
          c <- acc ;;
          match row with
          | JNull => None
          | _ => match get_field row "imgs" with
                 | Some (JArr imgs) => Some (c + List.length imgs)
                 | _ => Some c
                 end
          end) rs (Some 0)
    | _ => Some 0
    end in
  c <- from_rows ;;
  Some (c + match get_field jsonData "untiered" with
            | Some (JArr u) => List.length u
            | _ => 0
            end).

(** [trimmed.split(/[,\s]+/).filter(p => p.length > 0)]: the maximal runs
    of characters other than commas and white space. *)
Definition is_sep (c : ascii) : bool := Ascii.eqb c "," || JsString.is_ws c.

Definition emit_part (cur_rev : list ascii) : list string :=
  match cur_rev with [] => [] | _ => [string_of_list_ascii (rev cur_rev)] end.

Fixpoint split_parts_aux (s : string) (cur_rev : list ascii) : list string :=
  match s with
  | EmptyString => emit_part cur_rev
  | String c t =>
      if is_sep c then (emit_part cur_rev ++ split_parts_aux t [])%list
      else split_parts_aux t (c :: cur_rev)
  end.

Definition split_parts (s : string) : list string := split_parts_aux s [].

Definition is_digit (c : ascii) : bool :=
  let n := nat_of_ascii c in (Nat.leb 48 n && Nat.leb n 57)%bool.

(** The longest prefix of decimal digits, and the rest. *)
Fixpoint digit_run (s : string) : string * string :=
  match s with
  | String c t =>
      if is_digit c then let '(d, r) := digit_run t in (String c d, r)
      else (EmptyString, s)
  | EmptyString => (EmptyString, EmptyString)
  end.

(** [part.match(/(\d+)[-:](\d+)/)]: the leftmost position where a run of
    digits is followed by [-] or [:] and a digit.  The greedy [\d+] never
    has to give a digit back, since the separator is not a digit. *)
Fixpoint range_match (s : string) : option (string * string) :=
  match s with
  | EmptyString => None
  | String _ t =>
      match digit_run s with
      | (String _ _ as d1, String sep rest) =>
          if Ascii.eqb sep "-" || Ascii.eqb sep ":" then
            match digit_run rest with
            | (String _ _ as d2, _) => Some (d1, d2)
            | _ => range_match t
            end
          else range_match t
      | _ => range_match t
      end
  end.

(** [selected.add(x)] on a [Set] kept in insertion order. *)
Definition set_add (x : nat) (s : list nat) : list nat :=
  if existsb (Nat.eqb x) s then s else (s ++ [x])%list.

Fixpoint insert_sorted (x : nat) (l : list nat) : list nat :=
  match l with
  | [] => [x]
  | y :: t => if Nat.leb x y then x :: l else y :: insert_sorted x t
  end.

(** [.sort((a, b) => a - b)] *)
Definition sort_numeric (l : list nat) : list nat := fold_right insert_sorted [] l.

(** The body of [for (const part of parts)]; every index added has been
    checked to be [>= 0], so it is kept as a [nat]. *)
Definition parse_part (totalGroups : nat) (selected : list nat) (part : string) : list nat :=
  if JsString.includes part "-" || JsString.includes part ":" then
    match range_match part with
    | Some (d1, d2) =>
        match JsString.parseInt d1, JsString.parseInt d2 with
        | Some a, Some b =>
            let start := (a - 1)%Z in
            let end_ := (b - 1)%Z in
            if ((0 <=? start) && (end_ <? Z.of_nat totalGroups) && (start <=? end_))%Z
            then fold_left (fun acc i => set_add i acc)
                           (seq (Z.to_nat start) (Z.to_nat (end_ - start + 1))) selected
            else selected
        | _, _ => selected
        end
    | None => selected
    end
  else
    match JsString.parseInt part with
    | Some n =>
        let num := (n - 1)%Z in
        if ((0 <=? num) && (num <? Z.of_nat totalGroups))%Z
        then set_add (Z.to_nat num) selected else selected
    | None => selected
    end.

(** [parseGroupSelection(input, totalGroups)] *)
Definition parseGroupSelection (input : string) (totalGroups : nat) : list nat :=
  let trimmed := JsString.to_lower (JsString.trim input) in
  if String.eqb trimmed "all" || String.eqb trimmed "a" then seq 0 totalGroups
  else if String.eqb trimmed "none" || String.eqb trimmed "n" || String.eqb trimmed ""
  then []
  else sort_numeric (fold_left (parse_part totalGroups) (split_parts trimmed) []).

End Dedup.

(** *** [main()] of the utility, as the sequence of its file-system and
    process effects. *)
Module DedupMain.
Import Dedup.

(** The answers and environment [main] consumes.  [skipped] is what
    [parseGroupSelection] returned for the user's answer, [ts] the
    timestamp [createBackup] formats from the clock. *)
Record main_inputs := mkInputs {
  file_path : string;
  file_exists : bool;
  file_contents : option json;    (* [None]: read or [JSON.parse] error *)
  skipped : list nat;
  approval : string;
  backup_ok : bool;               (* [fs.copyFileSync] succeeds *)
  ts : string;
  continue_answer : string;
  write_ok : bool
}.

Inductive effect :=
| ECopy (from to : string)        (* [fs.copyFileSync] *)
| EWrite (path : string) (data : json)   (* [saveJsonFile]: whole-file rewrite *)
| EClose                          (* [rl.close()] *)
| EExit (code : nat).             (* [process.exit(code)] *)

(** [answer.toLowerCase().trim() === 'y' || ... === 'yes'] *)
Definition is_yes (answer : string) : bool :=
  let t := JsString.trim (JsString.to_lower answer) in
  String.eqb t "y" || String.eqb t "yes".

Definition backup_path (filePath ts : string) : string :=
  filePath ++ ".backup-" ++ ts.

(** From [removeDuplicatesFromTierlist] on: remove, save, report. *)
Definition remove_and_save (inp : main_inputs) (jsonData : json)
           (selectedGroups : list (list dup_entry)) : list effect :=
  match removeDuplicatesFromTierlist jsonData selectedGroups with
  | None => [EClose; EExit 1]
  | Some cleaned =>
      EWrite (file_path inp) cleaned
        :: (if write_ok inp then [EClose] else [EExit 1])
  end.

Definition main (inp : main_inputs) : list effect :=
  if negb (file_exists inp) then [EExit 1] else
  match file_contents inp with
  | None => [EExit 1]
  | Some parsed =>
  match validate parsed with
  | inl _ => [EExit 1]
  | inr jsonData =>
  match (es <- collectAllEntries jsonData ;; findDuplicateGroups es) with
  | None => [EClose; EExit 1]      (* main().catch *)
  | Some duplicateGroups =>
  match duplicateGroups with
  | [] => [EClose]
  | _ =>
  let selectedGroupIndices :=
    filter (fun idx => negb (existsb (Nat.eqb idx) (skipped inp)))
           (seq 0 (List.length duplicateGroups)) in
  match selectedGroupIndices with
  | [] => [EClose]
  | _ =>
  let selectedGroups := map (fun idx => nth idx duplicateGroups []) selectedGroupIndices in
  if negb (is_yes (approval inp)) then [EClose] else
  if backup_ok inp then
    ECopy (file_path inp) (backup_path (file_path inp) (ts inp))
      :: remove_and_save inp jsonData selectedGroups
  else if is_yes (continue_answer inp) then
    remove_and_save inp jsonData selectedGroups
  else [EClose]
  end end end end end.

End DedupMain.

(** *** [main()] of the add-restaurant utility (the second script of the
    file), as the sequence of its effects. *)
Module AddRestaurant.

(** [getJsonFiles()]: the [.json] names of the data directory. *)
Definition getJsonFiles (files : list string) : list string :=
  filter (fun f => JsString.ends_with f ".json") files.

(** [dir_files] is [None] when [readdirSync] fails; [download] is what
    [downloadAndConvertImage(imageUrl.trim())] resolves to ([None]: it
    rejects). *)
Record add_inputs := mkAddInputs {
  dir_files : option (list string);
  file_choice : string;
  restaurant_name : string;
  image_url : string;
  contents : option json;         (* [None]: read or [JSON.parse] error *)
  download : option string;
  add_write_ok : bool
}.

(** [obj.k = v]: replaces the value of an existing key, or adds the key
    at the end. *)
Definition put_field (o : json) (k : string) (v : json) : json :=
  match o with
  | JObj kvs =>
      if existsb (fun kv => String.eqb k (fst kv)) kvs
      then JObj (Dedup.set_assoc k v kvs) else JObj (kvs ++ [(k, v)])%list
  | _ => o
  end.

(** The file written is [path.join(DATA_DIR, selectedFile)]; it is named
    by [selectedFile] here. *)
Definition main (inp : add_inputs) : list DedupMain.effect :=
  match dir_files inp with
  | None => [DedupMain.EExit 1]
  | Some files =>
  let jsonFiles := getJsonFiles files in
  match jsonFiles with
  | [] => [DedupMain.EExit 1]
  | _ =>
  match JsString.parseInt (file_choice inp) with
  | None => [DedupMain.EExit 1]
  | Some n =>
  let fileIndex := (n - 1)%Z in
  if ((fileIndex <? 0) || (Z.of_nat (List.length jsonFiles) <=? fileIndex))%Z
  then [DedupMain.EExit 1] else
  let selectedFile := nth (Z.to_nat fileIndex) jsonFiles "" in
  if String.eqb (JsString.trim (restaurant_name inp)) "" then [DedupMain.EExit 1] else
  if String.eqb (JsString.trim (image_url inp)) "" then [DedupMain.EExit 1] else
  match contents inp with
  | None => [DedupMain.EExit 1]
  | Some parsed =>
  match Dedup.validate parsed with
  | inl _ => [DedupMain.EExit 1]
  | inr jsonData =>
  let jsonData1 := if truthy (get_field jsonData "untiered") then jsonData
                   else put_field jsonData "untiered" (JArr []) in
  match download inp with
  | None => [DedupMain.EExit 1]
  | Some dataUri =>
  let newEntry := JObj [("src", JStr dataUri);
                        ("name", JStr (JsString.trim (restaurant_name inp)))] in
  let jsonData2 := match get_field jsonData1 "untiered" with
                   | Some (JArr u) => put_field jsonData1 "untiered" (JArr (u ++ [newEntry]))
                   | _ => jsonData1
                   end in
  DedupMain.EWrite selectedFile jsonData2
    :: (if add_write_ok inp then [DedupMain.EClose] else [DedupMain.EExit 1])
  end end end end end end.

End AddRestaurant.

(* ================================================================== *)
(** ** What a save/load cycle is expected to give back *)

Module Reload.

Local Open Scope list_scope.

(** An item after a save/load cycle: [name] comes back trimmed. *)
Definition trim_item (it : item) : item := mkItem (src it) (JsString.trim (name it)).

Definition byte_rgb (c : rgb) : Prop :=
  let '(r, g, b) := c in (0 <= r < 256 /\ 0 <= g < 256 /\ 0 <= b < 256)%Z.

(** The colour a saved row is loaded with: an unset header colour was
    saved as ["#000000"]. *)
Definition reloaded_color (c : option rgb) : rgb :=
  match c with Some c' => c' | None => (0, 0, 0)%Z end.

Definition reloaded_row (r : row) : row :=
  mkRow (JsString.substr0 (row_label r) MAX_NAME_LEN)
        (Some (reloaded_color (row_color r)))
        (map trim_item (row_items r)).

(** The untiered pool after a cycle: each item twice, once in object
    form and once from its bare [src]. *)
Definition reloaded_pool (p : list pool_entry) : list pool_entry :=
  flat_map (fun e => [Bare (trim_item (entry_item e));
                      Bare (mkItem (src (entry_item e)) "")]) p.

Definition row_ok (r : row) : Prop :=
  Forall (fun it => src it <> "") (row_items r) /\
  match row_color r with Some c => byte_rgb c | None => True end.

Definition saveable (d : dom) : Prop :=
  Forall row_ok (rows d) /\ Forall (fun e => src (entry_item e) <> "") (pool d).

End Reload.

(* ================================================================== *)
(** ** Inputs and observations used by the properties *)

Module Scenarios.

Local Open Scope list_scope.

(** Whether the grabbed [.item-container] sits in a [span.item]: every
    row item does; a pool item only once it has been dropped there. *)
Definition in_span (d : dom) (c : Drag.container) (k : nat) : bool :=
  match c with
  | Drag.CRow _ => true
  | Drag.CPool =>
      match nth_error (pool d) k with Some (Wrapped _) => true | _ => false end
  end.

Definition container_eqb (a b : Drag.container) : bool :=
  match a, b with
  | Drag.CRow i, Drag.CRow j => Nat.eqb i j
  | Drag.CPool, Drag.CPool => true
  | _, _ => false
  end.

Definition surface_exists (d : dom) (c : Drag.container) : Prop :=
  match c with
  | Drag.CRow r => r < List.length (rows d)
  | Drag.CPool => True
  end.

Definition itA : item := mkItem "a.png" "A".
Definition itB : item := mkItem "b.png" "B".
Definition itC : item := mkItem "c.png" "C".
Definition itD : item := mkItem "d.png" "D".
Definition itE : item := mkItem "e.png" "E".
Definition itF : item := mkItem "f.png" "F".

(** An untiered pool as [load_tierlist] leaves it: unwrapped containers. *)
Definition loaded_pool_doc : dom :=
  mkDom "T" [] (map Bare [itA; itB; itC; itD; itE; itF]).

Definition wrapped_pool_doc : dom :=
  mkDom "T" [] (Wrapped itA :: map Bare [itB; itC; itD; itE; itF]).

Definition abcd_doc : dom := mkDom "T" [mkRow "S" None [itA; itB; itC; itD]] [].

(** A row item whose name has surrounding whitespace. *)
Definition spaced_doc : dom :=
  mkDom "T" [mkRow "S" (Some (255, 102, 102)%Z) [mkItem "a.png" " A "]] [].

(** A page whose names need no trimming. *)
Definition plain_doc : dom :=
  mkDom "T" [mkRow "S" (Some (255, 102, 102)%Z) [itA; itB]] [Bare itC].

(** A file in the legacy format: the untiered image given by its [src]. *)
Definition legacy_untiered (s : string) : json :=
  JObj [("title", JStr "t"); ("rows", JArr []); ("untiered", JArr [JStr s])].

Definition title_only (t : string) : json := JObj [("title", JStr t)].

Definition prior_doc : dom :=
  mkDom "My list" [mkRow "S" (Some (255, 127, 127)%Z) [itA]] [Bare itB].

Definition named (s n : string) : json := JObj [("src", JStr s); ("name", JStr n)].

Definition pizza_doc (s1 s2 s3 : string) : json :=
  JObj [("title", JStr "Restaurants"); ("rows", JArr []);
        ("untiered", JArr [named s1 "Pizza Hut"; named s2 "Pizza Hut Branch 2";
                           named s3 "KFC"])].

(** Every item of the page, in the rows and in the pool. *)
Definition all_items (d : dom) : list item :=
  flat_map row_items (rows d) ++ map entry_item (pool d).

(** A run of the utility where [copyFileSync] fails and the user
    answers "y" to both questions. *)
Definition failed_backup_run : DedupMain.main_inputs :=
  DedupMain.mkInputs "tierlist.json" true (Some (pizza_doc "p1.png" "p2.png" "k.png"))
    [] "y" false "2026-01-01T00-00-00" "y" true.

End Scenarios.

(** Observations used by the further properties. *)
Module ExtraDefs.

Local Open Scope list_scope.

(** The length of a string name, [0] for any other name. *)
Definition name_len (e : Dedup.dup_entry) : nat :=
  match Dedup.name_length e with Some n => n | None => 0 end.

(** The callback of [keepShortestEntry]'s [reduce]. *)
Definition keep_step (shortest current : Dedup.dup_entry) : Dedup.dup_entry :=
  match Dedup.name_length current, Dedup.name_length shortest with
  | Some a, Some b => if Nat.ltb a b then current else shortest
  | _, _ => shortest
  end.

(** A row as [reset_row] leaves it. *)
Definition emptied (r : row) : row := mkRow (row_label r) (row_color r) [].

(** A selection with no repeated index, all below [n]. *)
Definition sel_ok (n : nat) (s : list nat) : Prop := NoDup s /\ Forall (fun i => i < n) s.

(** Numbered entries that sit at their number in [entries]. *)
Definition num_ok (entries : list Dedup.dup_entry)
           (num : list (nat * Dedup.dup_entry)) : Prop :=
  forall j e, In (j, e) num -> nth_error entries j = Some e.

Definition members_ok (entries g : list Dedup.dup_entry) : Prop :=
  forall e, In e g -> In e entries.

(** The state of [findDuplicateGroups]' loop: the processed positions
    are distinct and include those of the groups, and every group holds
    at least two entries of [entries]. *)
Definition groups_ok (entries : list Dedup.dup_entry)
           (st : list (list Dedup.dup_entry) * list nat) : Prop :=
  let '(groups, processed) := st in
  NoDup processed /\
  (exists Q, Permutation processed (map Dedup.eid (List.concat groups) ++ Q)) /\
  (forall g, In g groups -> 2 <= List.length g /\ members_ok entries g).

(** A run of the add-restaurant utility that picks the second [.json]
    file and adds " KFC " to the file's contents [doc]. *)
Definition add_kfc (doc : json) : AddRestaurant.add_inputs :=
  AddRestaurant.mkAddInputs (Some ["notes.txt"; "fast_food.json"; "restaurants.json"])
    " 2" " KFC " "https://example.com/kfc.png" (Some doc) (Some "data:image/png;base64,AA")
    true.

(** [l1] is [l2] with some of its elements left out. *)
Inductive subseq {A} : list A -> list A -> Prop :=
| subseq_nil : subseq [] []
| subseq_keep x l1 l2 : subseq l1 l2 -> subseq (x :: l1) (x :: l2)
| subseq_drop x l1 l2 : subseq l1 l2 -> subseq l1 (x :: l2).

End ExtraDefs.

(* ================================================================== *)
(** * Properties *)

(** ** Colours survive [rgb_to_hex] followed by the CSS parser *)

Section HexRoundTrip.
Local Open Scope Z_scope.

Lemma lor_disjoint_add (a b k : Z) :
  0 <= k -> 0 <= a -> a mod 2 ^ k = 0 -> 0 <= b < 2 ^ k -> Z.lor a b = a + b.
Proof.
  intros Hk Ha Hmod Hb.
  assert (Hpos : 0 < 2 ^ k) by (apply Z.pow_pos_nonneg; lia).
  assert (Ha' : a = 2 ^ k * (a / 2 ^ k)) by (rewrite (Z.div_mod a (2 ^ k)) at 1; lia).
  apply Z.bits_inj'; intros i Hi. rewrite Z.lor_spec.
  destruct (Z.lt_ge_cases i k) as [Hlt | Hge].
  - rewrite <- (Z.mod_pow2_bits_low a k i Hlt), Hmod, Z.bits_0.
    rewrite <- (Z.mod_pow2_bits_low (a + b) k i Hlt).
    rewrite Ha', Z.add_comm, Z.mul_comm, Z.mod_add by lia.
    rewrite Z.mod_small by lia. reflexivity.
  - replace i with ((i - k) + k) by lia.
    rewrite <- !Z.div_pow2_bits by lia.
    rewrite (Z.div_small b) by lia. rewrite Z.bits_0, orb_false_r.
    rewrite Ha', Z.mul_comm, Z.div_add_l by lia.
    rewrite (Z.div_small b) by lia. rewrite Z.add_0_r.
    rewrite Z.div_mul by lia. reflexivity.
Qed.

Lemma rgb_number (r g b : Z) :
  0 <= r < 256 -> 0 <= g < 256 -> 0 <= b < 256 ->
  Z.lor (Z.lor (Z.lor (Z.shiftl 1 24) (Z.shiftl r 16)) (Z.shiftl g 8)) b
  = 2 ^ 24 + r * 2 ^ 16 + g * 2 ^ 8 + b.
Proof.
  intros Hr Hg Hb.
  rewrite !Z.shiftl_mul_pow2 by lia.
  assert (H1 : (1 * 2 ^ 24) mod 2 ^ 24 = 0) by (apply Z.mod_mul; lia).
  rewrite (lor_disjoint_add (1 * 2 ^ 24) (r * 2 ^ 16) 24 ltac:(lia) ltac:(lia) H1 ltac:(lia)).
  assert (H2 : (1 * 2 ^ 24 + r * 2 ^ 16) mod 2 ^ 16 = 0).
  { replace (1 * 2 ^ 24 + r * 2 ^ 16) with ((2 ^ 8 + r) * 2 ^ 16) by lia.
    apply Z.mod_mul; lia. }
  rewrite (lor_disjoint_add (1 * 2 ^ 24 + r * 2 ^ 16) (g * 2 ^ 8) 16 ltac:(lia) ltac:(lia) H2 ltac:(lia)).
  assert (H3 : (1 * 2 ^ 24 + r * 2 ^ 16 + g * 2 ^ 8) mod 2 ^ 8 = 0).
  { replace (1 * 2 ^ 24 + r * 2 ^ 16 + g * 2 ^ 8) with ((2 ^ 16 + r * 2 ^ 8 + g) * 2 ^ 8)
      by lia.
    apply Z.mod_mul; lia. }
  rewrite (lor_disjoint_add (1 * 2 ^ 24 + r * 2 ^ 16 + g * 2 ^ 8) b 8 ltac:(lia) ltac:(lia) H3 ltac:(lia)).
  lia.
Qed.

Lemma to_hex_aux_step (f : nat) (q m : Z) (acc : string) :
  1 <= q -> 0 <= m < 16 ->
  to_hex_aux (S f) (16 * q + m) acc = to_hex_aux f q (String (hex_char m) acc).
Proof.
  intros Hq Hm. cbn [to_hex_aux].
  replace ((16 * q + m) mod 16) with m.
  2: { rewrite Z.add_comm, Z.mul_comm, Z.mod_add by lia. rewrite Z.mod_small; lia. }
  replace ((16 * q + m) <? 16) with false by (symmetry; apply Z.ltb_ge; lia).
  replace ((16 * q + m) / 16) with q; [reflexivity |].
  rewrite Z.add_comm, Z.mul_comm, Z.div_add by lia. rewrite Z.div_small; lia.
Qed.

Lemma hex_digit_split (x : Z) : 0 <= x < 256 ->
  x = 16 * (x / 16) + x mod 16 /\ 0 <= x / 16 < 16 /\ 0 <= x mod 16 < 16.
Proof.
  intros Hx. split; [apply Z.div_mod; lia |].
  split; [split; [apply Z.div_pos; lia | apply Z.div_lt_upper_bound; lia] |].
  apply Z.mod_pos_bound; lia.
Qed.

Lemma hex_val_hex_char (d : Z) : 0 <= d < 16 -> hex_val (hex_char d) = Some d.
Proof.
  intros Hd.
  assert (d = 0 \/ d = 1 \/ d = 2 \/ d = 3 \/ d = 4 \/ d = 5 \/ d = 6 \/ d = 7 \/
          d = 8 \/ d = 9 \/ d = 10 \/ d = 11 \/ d = 12 \/ d = 13 \/ d = 14 \/ d = 15)
    as Hc by lia.
  repeat destruct Hc as [-> | Hc]; try reflexivity; subst; reflexivity.
Qed.

Lemma rgb_to_hex_digits (r g b : Z) :
  0 <= r < 256 -> 0 <= g < 256 -> 0 <= b < 256 ->
  rgb_to_hex r g b =
  String "#" (String (hex_char (r / 16)) (String (hex_char (r mod 16))
   (String (hex_char (g / 16)) (String (hex_char (g mod 16))
   (String (hex_char (b / 16)) (String (hex_char (b mod 16)) EmptyString)))))).
Proof.
  intros Hr Hg Hb. unfold rgb_to_hex, to_hex. rewrite rgb_number by assumption.
  destruct (hex_digit_split r Hr) as (Er & Hr1 & Hr0).
  destruct (hex_digit_split g Hg) as (Eg & Hg1 & Hg0).
  destruct (hex_digit_split b Hb) as (Eb & Hb1 & Hb0).
  replace (2 ^ 24 + r * 2 ^ 16 + g * 2 ^ 8 + b) with
    (16 * (16 * (16 * (16 * (16 * (16 * 1 + r / 16) + r mod 16) + g / 16)
       + g mod 16) + b / 16) + b mod 16) by lia.
  rewrite !to_hex_aux_step by lia.
  reflexivity.
Qed.

Lemma parse_rgb_to_hex (r g b : Z) :
  0 <= r < 256 -> 0 <= g < 256 -> 0 <= b < 256 ->
  parse_hex_color (rgb_to_hex r g b) = Some (r, g, b).
Proof.
  intros Hr Hg Hb. rewrite rgb_to_hex_digits by assumption.
  destruct (hex_digit_split r Hr) as (Er & Hr1 & Hr0).
  destruct (hex_digit_split g Hg) as (Eg & Hg1 & Hg0).
  destruct (hex_digit_split b Hb) as (Eb & Hb1 & Hb0).
  cbn [parse_hex_color].
  rewrite !hex_val_hex_char by assumption.
  rewrite <- Er, <- Eg, <- Eb. reflexivity.
Qed.

End HexRoundTrip.

(** ** What [load_tierlist] makes of [save_tierlist]'s output *)

Module RoundTrip.

Local Open Scope list_scope.
Import Reload.

Lemma update_last_app {A} (f : A -> A) (l : list A) (x : A) :
  update_last f (l ++ [x]) = l ++ [f x].
Proof.
  unfold update_last. rewrite rev_app_distr. simpl.
  rewrite List.rev_involutive. reflexivity.
Qed.

Lemma truthy_str_nonempty (s : string) : s <> "" -> truthy (Some (JStr s)) = true.
Proof.
  intros H. simpl. destruct (String.eqb_spec s ""); [contradiction | reflexivity].
Qed.

Lemma truthy_str_or_empty (s : string) :
  (if truthy (Some (JStr s)) then s else "") = s.
Proof. simpl. destruct (String.eqb_spec s ""); subst; reflexivity. Qed.

Lemma load_entry_item_obj (it : item) :
  src it <> "" -> load_entry (Save.item_obj it) = ELoad (trim_item it).
Proof.
  intros H. destruct it as [s n]. unfold trim_item, Save.item_obj. cbn [src name] in *.
  remember (JsString.trim n) as t eqn:Ht. clear Ht.
  unfold load_entry. cbn [get_field assoc String.eqb Ascii.eqb Bool.eqb andb].
  unfold truthy. destruct (String.eqb_spec s ""); [contradiction |].
  cbn [negb js_to_string]. destruct (String.eqb_spec t ""); subst; reflexivity.
Qed.

Lemma load_row_entries (items : list item) (d : dom) (pre : list row) (r : row) :
  Forall (fun it => src it <> "") items ->
  rows d = pre ++ [r] ->
  for_each load_row_entry (map Save.item_obj items) d =
  Done (set_rows d (pre ++ [mkRow (row_label r) (row_color r)
                                  (row_items r ++ map trim_item items)])).
Proof.
  revert d r. induction items as [| it t IH]; intros d r Hsrc Hrows.
  - simpl. rewrite app_nil_r. destruct d, r; simpl in *. subst. reflexivity.
  - inversion Hsrc as [| ? ? Hit Ht]; subst.
    cbn [map for_each]. unfold seq_step.
    assert (load_row_entry (Save.item_obj it) = push_last_row_item (trim_item it)) as ->
      by (unfold load_row_entry; rewrite (load_entry_item_obj it Hit); reflexivity).
    unfold push_last_row_item, modify. rewrite Hrows, update_last_app.
    rewrite (IH (set_rows d (pre ++ [mkRow (row_label r) (row_color r)
                                          (row_items r ++ [trim_item it])]))
                (mkRow (row_label r) (row_color r) (row_items r ++ [trim_item it]))
                Ht eq_refl).
    cbn [set_rows title pool row_label row_color row_items].
    rewrite <- app_assoc. reflexivity.
Qed.

Lemma reloaded_header (c : option rgb) :
  match c with Some c' => byte_rgb c' | None => True end ->
  set_background None (JStr (header_hex c)) = Some (reloaded_color c).
Proof.
  intros Hc. unfold set_background. cbn [js_to_string].
  destruct c as [[[r g] b] |]; simpl in Hc.
  - destruct Hc as (Hr & Hg & Hb). unfold header_hex.
    rewrite parse_rgb_to_hex by assumption. reflexivity.
  - unfold header_hex. rewrite parse_rgb_to_hex by lia. reflexivity.
Qed.

Lemma load_row_obj (r : row) (d : dom) :
  row_ok r ->
  load_row (Save.row_obj r) d = Done (set_rows d (rows d ++ [reloaded_row r])).
Proof.
  intros [Hsrc Hcol]. unfold load_row, Save.row_obj.
  simpl get_field. cbn [inner_text_of js_to_string for_of].
  unfold seq_step at 1, append_row, modify.
  set (r0 := mkRow (JsString.substr0 (row_label r) MAX_NAME_LEN) None []).
  unfold seq_step at 1.
  rewrite (load_row_entries (row_items r) (set_rows d (rows d ++ [r0])) (rows d) r0
             Hsrc eq_refl).
  unfold seq_step, set_last_row_label, set_last_row_color, modify.
  cbn [rows set_rows]. rewrite !update_last_app. subst r0.
  cbn [row_label row_color row_items set_rows title pool].
  rewrite (reloaded_header _ Hcol). reflexivity.
Qed.

Lemma load_rows (rs : list row) (d : dom) :
  Forall row_ok rs ->
  for_each load_row (map Save.row_obj rs) d =
  Done (set_rows d (rows d ++ map reloaded_row rs)).
Proof.
  revert d. induction rs as [| r t IH]; intros d Hok.
  - simpl. rewrite app_nil_r. destruct d; reflexivity.
  - inversion Hok as [| ? ? Hr Ht]; subst.
    cbn [map for_each]. unfold seq_step at 1. rewrite (load_row_obj r d Hr).
    rewrite (IH _ Ht). destruct d; simpl. rewrite <- app_assoc. reflexivity.
Qed.

Lemma load_pool (p : list pool_entry) (d : dom) :
  Forall (fun e => src (entry_item e) <> "") p ->
  for_each load_untiered_entry (map Save.untiered_entry (Save.untiered_imgs p)) d =
  Done (set_pool d (pool d ++ reloaded_pool p)).
Proof.
  revert d. induction p as [| e t IH]; intros d Hok.
  - simpl. rewrite app_nil_r. destruct d; reflexivity.
  - inversion Hok as [| ? ? He Ht]; subst.
    cbn [Save.untiered_imgs flat_map map app for_each Save.untiered_entry].
    unfold seq_step at 1, load_untiered_entry.
    rewrite (load_entry_item_obj _ He).
    unfold seq_step at 1, push_pool, modify. cbn [load_entry].
    fold (Save.untiered_imgs t). rewrite (IH _ Ht).
    destruct d; simpl. rewrite <- !app_assoc. reflexivity.
Qed.

(** Importing a saved file, from any prior page state [d']. *)
Lemma import_saved (d d' : dom) :
  saveable d ->
  import_input (save_tierlist d) d' =
  Done (mkDom (title d) (map reloaded_row (rows d)) (reloaded_pool (pool d))).
Proof.
  intros [Hrows Hpool]. unfold import_input, save_tierlist.
  destruct (Save.untiered_imgs (pool d)) eqn:Hu.
  - assert (pool d = []) as Hp.
    { destruct (pool d); [reflexivity | discriminate]. }
    cbn [truthy negb]. unfold load_tierlist.
    cbn [app get_field assoc String.eqb inner_text_of js_to_string for_in_values].
    unfold seq_step at 1, modify. unfold seq_step.
    rewrite (load_rows _ _ Hrows). cbn [truthy].
    rewrite Hp. reflexivity.
  - cbn [truthy negb]. unfold load_tierlist.
    cbn [app get_field assoc String.eqb inner_text_of js_to_string for_in_values].
    unfold seq_step at 1, modify. unfold seq_step.
    rewrite (load_rows _ _ Hrows). cbn [truthy for_of].
    rewrite <- Hu. rewrite (load_pool _ _ Hpool). reflexivity.
Qed.

End RoundTrip.

(* ================================================================== *)
(** ** The specification's claims *)

Module Claims.

Import Scenarios Reload.
Local Open Scope list_scope.

(** C2 (counterexample): in the row [[A;B;C;D]], grabbing [A] (index 0)
    and dropping it with raw destination index 3 gives [[B;C;A;D]], which
    is not [[B;C;D;A]]; 3 is what [get_item_index] returns for [D]'s
    [span.item]. *)
Lemma same_row_forward_move_counterexample :
  Drag.get_item_index 4 (Drag.ESpan 3) = Drag.JSNum 3 /\
  fst (Drag.drop abcd_doc (Some (Drag.CRow 0, 0)) (Drag.CRow 0) false
         (Drag.JSNum 0) (Drag.JSNum 3))
  = mkDom "T" [mkRow "S" None [itB; itC; itA; itD]] [] /\
  [itB; itC; itA; itD] <> [itB; itC; itD; itA].
Proof.
  split; [reflexivity | split; [reflexivity | discriminate]].
Qed.

(** C2: for any four items [A], [B], [C], [D] of a row, grabbing [A]
    (source index 0) and dropping it while hovering [D]'s [span.item]
    (raw destination index 3) puts [A] immediately to the left of [D]:
    the row becomes [[B;C;A;D]], with destination index 2. *)
Theorem same_row_forward_move (t l : string) (col : option rgb) (p : list pool_entry)
        (a b c e : item) :
  Drag.get_item_index 4 (Drag.ESpan 3) = Drag.JSNum 3 /\
  Drag.drop (mkDom t [mkRow l col [a; b; c; e]] p) (Some (Drag.CRow 0, 0))
            (Drag.CRow 0) false (Drag.JSNum 0) (Drag.JSNum 3)
  = (mkDom t [mkRow l col [b; c; a; e]] p, Drag.JSNum 2).
Proof. split; reflexivity. Qed.

(** C4: the page loads a legacy untiered entry, a bare [src] string [s],
    as the item [{src: s, name: ""}]; saving the page then emits that item
    twice in [untiered], in object form and as the bare string [s]
    again. *)
Theorem legacy_untiered_reemitted (s : string) (d : dom) :
  import_input (legacy_untiered s) d = Done (mkDom "t" [] [Bare (mkItem s "")]) /\
  save_tierlist (mkDom "t" [] [Bare (mkItem s "")]) =
  JObj [("title", JStr "t"); ("rows", JArr []);
        ("untiered", JArr [JObj [("src", JStr s); ("name", JStr "")]; JStr s])].
Proof. split; reflexivity. Qed.

(** C5 (counterexample): importing [{"title": "x"}] into a page holding a
    row and an untiered item raises nothing and empties the page. *)
Lemma import_title_only_counterexample :
  import_input (title_only "x") prior_doc = Done (mkDom "x" [] []) /\
  rows prior_doc <> [] /\ pool prior_doc <> [].
Proof. split; [reflexivity | split; discriminate]. Qed.

(** C5: the page's import of [{"title": t}] raises no error: from any
    prior state it ends with title [t], no rows and an empty untiered
    pool.  The utility's [loadJsonFile] rejects the same input with
    [Invalid JSON: "rows" must be an array]. *)
Theorem import_title_only (t : string) (d : dom) :
  import_input (title_only t) d = Done (mkDom t [] []) /\
  Dedup.validate (title_only t) =
  inl ("Invalid JSON: " ++ Dedup.dq ++ "rows" ++ Dedup.dq ++ " must be an array")%string.
Proof. split; reflexivity. Qed.

(** C6: with untiered entries named "Pizza Hut", "Pizza Hut Branch 2" and
    "KFC" (any [src]s), the duplicate finder returns the single group of
    the first two entries, [keepShortestEntry] keeps "Pizza Hut", and the
    removal leaves "Pizza Hut" and "KFC". *)
Theorem pizza_hut_grouping (s1 s2 s3 : string) :
  let e0 := Dedup.mkEntry (named s1 "Pizza Hut") (Dedup.LUntiered 0) 0 in
  let e1 := Dedup.mkEntry (named s2 "Pizza Hut Branch 2") (Dedup.LUntiered 1) 1 in
  let e2 := Dedup.mkEntry (named s3 "KFC") (Dedup.LUntiered 2) 2 in
  Dedup.collectAllEntries (pizza_doc s1 s2 s3) = Some [e0; e1; e2] /\
  Dedup.findDuplicateGroups [e0; e1; e2] = Some [[e0; e1]] /\
  Dedup.keepShortestEntry [e0; e1] = Some e0 /\
  Dedup.removeDuplicatesFromTierlist (pizza_doc s1 s2 s3) [[e0; e1]] =
  Some (JObj [("title", JStr "Restaurants"); ("rows", JArr []);
              ("untiered", JArr [named s1 "Pizza Hut"; named s3 "KFC"])]).
Proof. intros e0 e1 e2. repeat split; reflexivity. Qed.

Lemma nth_error_split_at {A} (l : list A) (n : nat) (x : A) :
  nth_error l n = Some x -> l = firstn n l ++ x :: skipn (S n) l.
Proof.
  revert n. induction l as [| y t IH]; intros n H; destruct n; simpl in *;
    try discriminate.
  - injection H as ->. reflexivity.
  - f_equal. apply IH. exact H.
Qed.

Lemma length_remove_at {A} (l : list A) (n : nat) (x : A) :
  nth_error l n = Some x -> S (List.length (remove_at n l)) = List.length l.
Proof.
  intros H. rewrite (nth_error_split_at l n x H) at 2. unfold remove_at.
  rewrite !length_app. simpl. lia.
Qed.

(** C7: removing the row at [idx], holding the items [row_items r],
    deletes that row and appends exactly its items, unwrapped and in
    their order, to the end of the untiered pool; the pool grows by
    [length (row_items r)], the row count drops by one, and the page's
    items are the same up to order. *)
Theorem rm_row_moves_items (d : dom) (idx : nat) (r : row) :
  nth_error (rows d) idx = Some r ->
  exists d', rm_row idx d = Done d' /\
    title d' = title d /\
    rows d' = remove_at idx (rows d) /\
    pool d' = pool d ++ map Bare (row_items r) /\
    List.length (pool d') = List.length (pool d) + List.length (row_items r) /\
    S (List.length (rows d')) = List.length (rows d) /\
    Permutation (all_items d') (all_items d).
Proof.
  intros H. unfold rm_row. rewrite H. eexists. split; [reflexivity |].
  cbn [title rows pool]. repeat split.
  - rewrite length_app, length_map. reflexivity.
  - exact (length_remove_at _ _ _ H).
  - unfold all_items. cbn [rows pool].
    rewrite (nth_error_split_at (rows d) idx r H) at 2. unfold remove_at.
    rewrite !flat_map_app. cbn [flat_map].
    rewrite map_app, map_map. cbn [entry_item]. rewrite map_id.
    rewrite <- !app_assoc. apply Permutation_app_head.
    rewrite (app_assoc (flat_map row_items (skipn (S idx) (rows d)))).
    symmetry. apply Permutation_app_comm.
Qed.

Lemma rm_row_moves_items_witness :
  let r := mkRow "S" (Some (255, 127, 127)%Z) [itA] in
  nth_error (rows prior_doc) 0 = Some r /\
  exists d', rm_row 0 prior_doc = Done d' /\
    pool d' = pool prior_doc ++ map Bare (row_items r).
Proof.
  intros r. split; [reflexivity |].
  destruct (rm_row_moves_items prior_doc 0 r eq_refl) as (d' & H1 & _ & _ & H2 & _).
  exists d'. split; assumption.
Defined.

Lemma insert_at_nonempty {A} (n : nat) (x : A) (l : list A) :
  1 <= List.length (insert_at n x l).
Proof. unfold insert_at. rewrite length_app. simpl. lia. Qed.

Lemma click_keeps_a_row (op : row_op) (d : dom) :
  1 <= List.length (rows d) -> 1 <= List.length (rows (state_of (click op d))).
Proof.
  intros H. destruct op as [idx | idx nm | idx c]; cbn [click].
  - unfold seq_step, add_row, modify, recompute_header_colors_at. cbn [rows set_rows].
    destruct (nth_error (insert_at idx _ _) idx); cbn [state_of rows set_rows].
    + rewrite length_app. simpl. lia.
    + apply insert_at_nonempty.
  - unfold seq_step, add_row, modify, recompute_header_colors_at. cbn [rows set_rows].
    destruct (nth_error (insert_at (S idx) _ _) (S idx)); cbn [state_of rows set_rows].
    + rewrite length_app. simpl. lia.
    + apply insert_at_nonempty.
  - unfold btn_rm_click. destruct (Nat.ltb_spec (List.length (rows d)) 2); [exact H |].
    destruct (nth_error (rows d) idx) as [r |] eqn:E; [| exact H].
    destruct (match row_items r with [] => true | _ => false end || c); [| exact H].
    unfold rm_row. rewrite E. cbn [state_of rows].
    pose proof (length_remove_at _ _ _ E). lia.
Qed.

Lemma run_clicks_keeps_a_row (ops : list row_op) (d : dom) :
  1 <= List.length (rows d) -> 1 <= List.length (rows (run_clicks ops d)).
Proof.
  revert d. induction ops as [| op t IH]; intros d H; [exact H |].
  apply IH, click_keeps_a_row, H.
Qed.

(** C9: the remove button does nothing when the page has fewer than two
    rows, and after any sequence of add-above, add-below and remove
    clicks starting from the default tierlist the page has at least one
    row. *)
Theorem remove_keeps_a_row :
  (forall (d : dom) (idx : nat) (confirmed : bool),
     List.length (rows d) < 2 -> click (ClickRemove idx confirmed) d = Done d) /\
  (forall (title0 : string) (ops : list row_op),
     1 <= List.length (rows (run_clicks ops (default_tierlist title0)))).
Proof.
  split.
  - intros d idx confirmed H. cbn [click]. unfold btn_rm_click.
    destruct (Nat.ltb_spec (List.length (rows d)) 2); [reflexivity | lia].
  - intros title0 ops. apply run_clicks_keeps_a_row.
    unfold default_tierlist. cbn. lia.
Qed.

Lemma remove_keeps_a_row_witness :
  List.length (rows (mkDom "T" [mkRow "S" None [itA]] [])) < 2 /\
  click (ClickRemove 0 true) (mkDom "T" [mkRow "S" None [itA]] []) =
  Done (mkDom "T" [mkRow "S" None [itA]] []).
Proof.
  split; [cbn; lia |].
  apply (proj1 remove_keeps_a_row). cbn; lia.
Defined.

Lemma remove_and_save_effects (inp : DedupMain.main_inputs) (j : json)
      (g : list (list Dedup.dup_entry)) :
  (forall p c, In (DedupMain.EWrite p c) (DedupMain.remove_and_save inp j g) ->
               p = DedupMain.file_path inp) /\
  (forall x y, ~ In (DedupMain.ECopy x y) (DedupMain.remove_and_save inp j g)).
Proof.
  unfold DedupMain.remove_and_save.
  destruct (Dedup.removeDuplicatesFromTierlist j g) as [cleaned |];
    [destruct (DedupMain.write_ok inp) |]; split; intros ? ?; cbn;
    intuition congruence.
Qed.

(** The three kinds of run of [main]: no write at all, a write after a
    successful backup, or a write after a failed backup which the user
    chose to go on from. *)
Lemma main_runs (inp : DedupMain.main_inputs) :
  (forall p c, ~ In (DedupMain.EWrite p c) (DedupMain.main inp)) \/
  (DedupMain.is_yes (DedupMain.approval inp) = true /\
   exists j g,
     (DedupMain.backup_ok inp = true /\
      DedupMain.main inp =
      DedupMain.ECopy (DedupMain.file_path inp)
        (DedupMain.backup_path (DedupMain.file_path inp) (DedupMain.ts inp))
        :: DedupMain.remove_and_save inp j g) \/
     (DedupMain.backup_ok inp = false /\
      DedupMain.is_yes (DedupMain.continue_answer inp) = true /\
      DedupMain.main inp = DedupMain.remove_and_save inp j g)).
Proof.
  unfold DedupMain.main.
  destruct (DedupMain.file_exists inp); cbn [negb];
    [| left; intros p c; cbn; intuition discriminate].
  destruct (DedupMain.file_contents inp) as [parsed |];
    [| left; intros p c; cbn; intuition discriminate].
  destruct (Dedup.validate parsed) as [msg | jsonData];
    [left; intros p c; cbn; intuition discriminate |].
  destruct (match Dedup.collectAllEntries jsonData with
            | Some es => Dedup.findDuplicateGroups es | None => None end)
    as [groups |]; [| left; intros p c; cbn; intuition discriminate].
  destruct groups as [| g0 gs]; [left; intros p c; cbn; intuition discriminate |].
  match goal with |- context [match ?l with [] => _ | _ :: _ => _ end] =>
    destruct l as [| i0 is] end;
    [left; intros p c; cbn; intuition discriminate |].
  destruct (DedupMain.is_yes (DedupMain.approval inp)) eqn:Ha; cbn [negb];
    [| left; intros p c; cbn; intuition discriminate].
  destruct (DedupMain.backup_ok inp) eqn:Hb.
  - right. split; [reflexivity |]. do 2 eexists. left. split; reflexivity.
  - destruct (DedupMain.is_yes (DedupMain.continue_answer inp)) eqn:Hc.
    + right. split; [reflexivity |]. do 2 eexists. right. split; [reflexivity |].
      split; reflexivity.
    + left. intros p c; cbn; intuition discriminate.
Qed.

(** C8 (counterexample): when [copyFileSync] fails and the user answers
    "y" to going on, [main] rewrites [tierlist.json] with no backup
    copy made before. *)
Lemma failed_backup_run_counterexample :
  DedupMain.backup_ok failed_backup_run = false /\
  exists cleaned, DedupMain.main failed_backup_run =
                  [DedupMain.EWrite "tierlist.json" cleaned; DedupMain.EClose].
Proof. split; [reflexivity | eexists; reflexivity]. Qed.

(** C8: every write [main] makes is a whole-file rewrite of the input
    file after the user approved the removal, and either a backup copy
    [<file>.backup-<ts>] was made first, or the backup failed, the user
    answered yes to going on without it, and the run makes no copy. *)
Theorem main_write_after_backup_or_consent (inp : DedupMain.main_inputs)
        (p : string) (c : json) :
  In (DedupMain.EWrite p c) (DedupMain.main inp) ->
  p = DedupMain.file_path inp /\
  DedupMain.is_yes (DedupMain.approval inp) = true /\
  ((DedupMain.backup_ok inp = true /\
    exists rest, DedupMain.main inp =
      DedupMain.ECopy (DedupMain.file_path inp)
        (DedupMain.backup_path (DedupMain.file_path inp) (DedupMain.ts inp)) :: rest /\
      In (DedupMain.EWrite p c) rest) \/
   (DedupMain.backup_ok inp = false /\
    DedupMain.is_yes (DedupMain.continue_answer inp) = true /\
    forall x y, ~ In (DedupMain.ECopy x y) (DedupMain.main inp))).
Proof.
  intros Hin.
  destruct (main_runs inp) as [Hno | (Ha & j & g & [(Hb & Hm) | (Hb & Hc & Hm)])].
  - exfalso. exact (Hno p c Hin).
  - destruct (remove_and_save_effects inp j g) as [Hw _].
    rewrite Hm in Hin. destruct Hin as [Hin | Hin]; [discriminate |].
    split; [exact (Hw p c Hin) |]. split; [exact Ha |].
    left. split; [exact Hb |]. eexists. split; [exact Hm | exact Hin].
  - destruct (remove_and_save_effects inp j g) as [Hw Hcp].
    rewrite Hm in Hin |- *.
    split; [exact (Hw p c Hin) |]. split; [exact Ha |].
    right. split; [exact Hb |]. split; [exact Hc | exact Hcp].
Qed.

Lemma main_write_after_backup_or_consent_witness :
  In (DedupMain.EWrite "tierlist.json"
        (JObj [("title", JStr "Restaurants"); ("rows", JArr []);
               ("untiered", JArr [named "p1.png" "Pizza Hut"; named "k.png" "KFC"])]))
     (DedupMain.main failed_backup_run) /\
  DedupMain.backup_ok failed_backup_run = false /\
  DedupMain.is_yes (DedupMain.continue_answer failed_backup_run) = true.
Proof.
  assert (Hin : In (DedupMain.EWrite "tierlist.json"
        (JObj [("title", JStr "Restaurants"); ("rows", JArr []);
               ("untiered", JArr [named "p1.png" "Pizza Hut"; named "k.png" "KFC"])]))
     (DedupMain.main failed_backup_run)) by (vm_compute; left; reflexivity).
  split; [exact Hin |].
  destruct (main_write_after_backup_or_consent _ _ _ Hin) as (_ & _ & [(Hb & _) | (Hb & Hc & _)]).
  - split; [reflexivity | reflexivity].
  - split; [exact Hb | exact Hc].
Defined.

Lemma length_replace_at {A} (l : list A) (n : nat) (x y : A) :
  nth_error l n = Some y ->
  List.length (firstn n l ++ x :: skipn (S n) l) = List.length l.
Proof.
  intros H. rewrite (nth_error_split_at l n y H) at 3.
  rewrite !length_app. reflexivity.
Qed.

(** What [detach] reports: the rows keep their number, and
    [old_item_row] is set exactly for a container in a [span.item], to
    the parent of the list it was taken from. *)
Lemma detach_spec (d : dom) (c : Drag.container) (k : nat) it oir d1 :
  Drag.detach d c k = Some (it, oir, d1) ->
  List.length (rows d1) = List.length (rows d) /\
  oir = (if in_span d c k then Some (Drag.items_parent c) else None).
Proof.
  destruct c as [r |]; cbn [Drag.detach in_span].
  - destruct (nth_error (rows d) r) as [rw |] eqn:Er; [| discriminate].
    destruct (nth_error (row_items rw) k); [| discriminate].
    intros H. injection H as <- <- <-. cbn [rows set_rows].
    split; [exact (length_replace_at _ _ _ _ Er) | reflexivity].
  - destruct (nth_error (pool d) k) as [[x | x] |]; [| | discriminate];
      intros H; injection H as <- <- <-; split; reflexivity.
Qed.

Lemma parent_node_eqb_items_parent (a b : Drag.container) :
  Drag.parent_node_eqb (Drag.items_parent b) (Drag.items_parent a) = container_eqb a b.
Proof. destruct a, b; cbn; try reflexivity. apply Nat.eqb_sym. Qed.

(** In a drop of the container at position [k] of [c] onto [dest],
    [target_item_index] is decremented (JavaScript [- 1]) exactly when the
    container sat in a [span.item] (every row item; a pool item only after
    it was itself dropped into the pool), [dest] is the surface it was
    taken from, and [old_item_index < target_item_index] in JavaScript;
    otherwise it is kept. *)
Lemma drop_target_adjustment (d : dom) (c dest : Drag.container) (k : nat)
        (target_is_row : bool) (old tgt : Drag.jsval) :
  Drag.detach d c k <> None ->
  surface_exists d dest ->
  snd (Drag.drop d (Some (c, k)) dest target_is_row old tgt) =
  if in_span d c k && container_eqb c dest && Drag.js_lt old tgt
  then Drag.js_minus1 tgt else tgt.
Proof.
  intros Hdet Hdest. unfold Drag.drop.
  destruct (Drag.detach d c k) as [[[it oir] d1] |] eqn:E; [| contradiction].
  destruct (detach_spec d c k it oir d1 E) as [Hlen Hoir].
  assert (Ht : Drag.adjusted_target dest oir old tgt =
               if in_span d c k && container_eqb c dest && Drag.js_lt old tgt
               then Drag.js_minus1 tgt else tgt).
  { unfold Drag.adjusted_target. rewrite Hoir.
    destruct (in_span d c k); [| reflexivity].
    rewrite parent_node_eqb_items_parent. reflexivity. }
  destruct dest as [r |].
  - cbn in Hdest. destruct (nth_error (rows d1) r) eqn:Er.
    + exact Ht.
    + apply nth_error_None in Er. lia.
  - exact Ht.
Qed.

(** C1: the same-surface decrement is skipped for an untiered item that
    is not wrapped in a [span.item] (as loaded, imported, pasted or
    returned by a row removal): the grab's else branch takes it out of the
    pool without setting [old_item_row], so a drop back into the pool
    keeps the raw index whatever [old_item_index] is.  A wrapped pool item
    is decremented when [old_item_index < target_item_index].  Dragging
    the first of six loaded items onto the fifth thus leaves it right of
    the hovered item, while the wrapped one lands left of it. *)
Theorem pool_move_unadjusted :
  (forall (d : dom) (k : nat) (it : item) (b : bool) (old tgt : Drag.jsval),
     nth_error (pool d) k = Some (Bare it) ->
     snd (Drag.drop d (Some (Drag.CPool, k)) Drag.CPool b old tgt) = tgt) /\
  (forall (d : dom) (k : nat) (it : item) (b : bool) (old tgt : Drag.jsval),
     nth_error (pool d) k = Some (Wrapped it) ->
     snd (Drag.drop d (Some (Drag.CPool, k)) Drag.CPool b old tgt) =
     (if Drag.js_lt old tgt then Drag.js_minus1 tgt else tgt)) /\
  Drag.js_lt (Drag.JSNum 0) (Drag.JSNum 4) = true /\
  Drag.drop loaded_pool_doc (Some (Drag.CPool, 0)) Drag.CPool false
            (Drag.JSNum 0) (Drag.JSNum 4)
  = (mkDom "T" [] [Bare itB; Bare itC; Bare itD; Bare itE; Wrapped itA; Bare itF],
     Drag.JSNum 4) /\
  Drag.drop wrapped_pool_doc (Some (Drag.CPool, 0)) Drag.CPool false
            (Drag.JSNum 0) (Drag.JSNum 4)
  = (mkDom "T" [] [Bare itB; Bare itC; Bare itD; Wrapped itA; Bare itE; Bare itF],
     Drag.JSNum 3).
Proof.
  assert (Hdet : forall d k e, nth_error (pool d) k = Some e ->
                 Drag.detach d Drag.CPool k <> None).
  { intros d k [x | x] H; cbn [Drag.detach]; rewrite H; discriminate. }
  split; [| split; [| split; [reflexivity | split; reflexivity]]];
    intros d k it b old tgt H;
    rewrite (drop_target_adjustment d Drag.CPool Drag.CPool k b old tgt
               (Hdet d k _ H) I);
    unfold in_span; rewrite H; reflexivity.
Qed.

Lemma substr0_short (s : string) (n : nat) :
  String.length s <= n -> JsString.substr0 s n = s.
Proof.
  unfold JsString.substr0. revert n.
  induction s as [| a t IH]; intros n H; destruct n; cbn in *; try reflexivity; try lia.
  f_equal. apply IH. lia.
Qed.

Lemma map_trim_item_id (items : list item) :
  Forall (fun it => JsString.trim (name it) = name it) items ->
  map trim_item items = items.
Proof.
  induction 1 as [| it t Hit _ IH]; [reflexivity |].
  cbn [map]. rewrite IH. unfold trim_item. rewrite Hit. destruct it; reflexivity.
Qed.

(** C3 (counterexample): a row item named [" A "] comes back from a
    save/load cycle named ["A"]. *)
Lemma spaced_doc_counterexample :
  import_input (save_tierlist spaced_doc) spaced_doc =
  Done (mkDom "T" [mkRow "S" (Some (255, 102, 102)%Z) [mkItem "a.png" "A"]] []) /\
  rows spaced_doc <> [mkRow "S" (Some (255, 102, 102)%Z) [mkItem "a.png" "A"]].
Proof. split; [vm_compute; reflexivity | discriminate]. Qed.

(** C3: for a page whose items have non-empty [src]s and names with no
    surrounding whitespace, whose row names have at most [MAX_NAME_LEN]
    characters and whose header colours are set (to byte components),
    importing the saved file gives back the same title and the same rows:
    names, colours and items, in order. *)
Theorem save_load_rows (d d' : dom) :
  saveable d ->
  Forall (fun r => row_color r <> None /\
                   String.length (row_label r) <= MAX_NAME_LEN /\
                   Forall (fun it => JsString.trim (name it) = name it) (row_items r))
         (rows d) ->
  exists d'', import_input (save_tierlist d) d' = Done d'' /\
              title d'' = title d /\ rows d'' = rows d.
Proof.
  intros Hs Hr. rewrite (RoundTrip.import_saved d d' Hs).
  eexists. split; [reflexivity |]. cbn [title rows]. split; [reflexivity |].
  induction Hr as [| r t (Hc & Hl & Hi) _ IH]; [reflexivity |].
  cbn [map]. rewrite IH. f_equal.
  unfold reloaded_row. rewrite (substr0_short _ _ Hl), (map_trim_item_id _ Hi).
  destruct r as [l [c |] items]; cbn in *; [reflexivity | contradiction].
Qed.

Lemma save_load_rows_witness :
  saveable plain_doc /\
  exists d'', import_input (save_tierlist plain_doc) plain_doc = Done d'' /\
              title d'' = title plain_doc /\ rows d'' = rows plain_doc.
Proof.
  assert (Hs : saveable plain_doc).
  { split; repeat constructor; cbn; try discriminate; lia. }
  split; [exact Hs |].
  apply (save_load_rows plain_doc plain_doc Hs).
  repeat constructor; cbn; try discriminate; lia.
Defined.

(** C10: saving writes every item's name trimmed, in the rows and in the
    untiered pool; importing the saved file gives rows whose item names
    are the trimmed names, and a pool holding the trimmed version of
    every untiered item. *)
Theorem save_trims_names (d d' : dom) :
  saveable d ->
  exists d'', import_input (save_tierlist d) d' = Done d'' /\
    map (fun r => map name (row_items r)) (rows d'') =
    map (fun r => map (fun it => JsString.trim (name it)) (row_items r)) (rows d) /\
    (forall e, In e (pool d) -> In (Bare (trim_item (entry_item e))) (pool d'')).
Proof.
  intros Hs. rewrite (RoundTrip.import_saved d d' Hs).
  eexists. split; [reflexivity |]. cbn [rows pool]. split.
  - rewrite map_map. apply map_ext. intros r. unfold reloaded_row. cbn [row_items].
    rewrite map_map. reflexivity.
  - intros e He. unfold reloaded_pool. apply in_flat_map.
    exists e. split; [exact He | left; reflexivity].
Qed.

Lemma save_trims_names_witness :
  saveable spaced_doc /\
  exists d'', import_input (save_tierlist spaced_doc) spaced_doc = Done d'' /\
    map (fun r => map name (row_items r)) (rows d'') = [["A"]].
Proof.
  assert (Hs : saveable spaced_doc).
  { split; repeat constructor; cbn; try discriminate; lia. }
  split; [exact Hs |].
  destruct (save_trims_names spaced_doc spaced_doc Hs) as (d'' & H1 & H2 & _).
  exists d''. split; [exact H1 |]. rewrite H2. vm_compute. reflexivity.
Defined.

End Claims.

(* ================================================================== *)
(** ** Further properties of the code *)

Module Extras.

Import Scenarios Reload Claims ExtraDefs.
Local Open Scope list_scope.

(** *** [isDuplicate] *)

(** X1: [isDuplicate] is symmetric, and every string name is a duplicate of
    itself. *)
Theorem isDuplicate_sym_refl :
  (forall a b, Dedup.isDuplicate a b = Dedup.isDuplicate b a) /\
  (forall s, Dedup.isDuplicate (JStr s) (JStr s) = Some true).
Proof.
  split.
  - intros a b. unfold Dedup.isDuplicate.
    destruct (Dedup.normalizeName a) as [n1 |], (Dedup.normalizeName b) as [n2 |];
      try reflexivity.
    rewrite String.eqb_sym. destruct (String.eqb n2 n1); [reflexivity |].
    destruct (Nat.ltb_spec (String.length n1) (String.length n2)),
             (Nat.ltb_spec (String.length n2) (String.length n1));
      try reflexivity; lia.
  - intros s. unfold Dedup.isDuplicate. cbn [Dedup.normalizeName].
    rewrite String.eqb_refl. reflexivity.
Qed.

(** *** [keepShortestEntry] *)



Lemma keepShortestEntry_cons g t :
  Dedup.keepShortestEntry (g :: t) = Some (fold_left keep_step t g).
Proof. reflexivity. Qed.

Lemma keep_step_string (acc cur : Dedup.dup_entry) :
  (exists n, Dedup.name_length acc = Some n) ->
  (exists n, Dedup.name_length cur = Some n) ->
  keep_step acc cur = if Nat.ltb (name_len cur) (name_len acc) then cur else acc.
Proof.
  intros [a Ha] [c Hc]. unfold keep_step, name_len. rewrite Ha, Hc. reflexivity.
Qed.

(** X2: For a non-empty group whose names are all strings, [keepShortestEntry]
    returns the entry at some position [i] whose name is no longer than
    any other of the group and strictly shorter than every name before
    position [i]: the first of the shortest names. *)
Theorem keepShortestEntry_first_shortest (group : list Dedup.dup_entry) :
  group <> [] ->
  (forall e, In e group -> exists n, Dedup.name_length e = Some n) ->
  exists i k, Dedup.keepShortestEntry group = Some k /\
    nth_error group i = Some k /\
    (forall e, In e group -> name_len k <= name_len e) /\
    (forall j e, j < i -> nth_error group j = Some e -> name_len k < name_len e).
Proof.
  intros Hne Hs. destruct group as [| g t]; [contradiction |]. clear Hne.
  rewrite keepShortestEntry_cons.
  induction t as [| x t IH] using rev_ind.
  - exists 0, g. split; [reflexivity | split; [reflexivity | split]].
    + intros e [<- | []]. lia.
    + intros j e Hj. lia.
  - destruct IH as (i & k & Hk & Hi & Hmin & Hfirst).
    { intros e He. apply Hs. destruct He as [He | He]; [left; exact He |].
      right. apply in_app_iff. left. exact He. }
    injection Hk as Hk.
    rewrite fold_left_app. simpl fold_left at 1. rewrite Hk.
    assert (Hx : In x (g :: t ++ [x])) by (right; apply in_app_iff; right; left; reflexivity).
    assert (Hacc : In k (g :: t ++ [x])).
    { destruct i as [| i]; simpl in Hi.
      - injection Hi as ->. left. reflexivity.
      - right. apply in_app_iff. left. exact (nth_error_In _ _ Hi). }
    rewrite (keep_step_string _ _ (Hs _ Hacc) (Hs _ Hx)).
    destruct (Nat.ltb_spec (name_len x) (name_len k)).
    + exists (S (List.length t)), x. split; [reflexivity |]. split.
      { simpl. rewrite nth_error_app2 by lia. rewrite Nat.sub_diag. reflexivity. }
      split.
      * intros e [<- | He].
        -- specialize (Hmin g (or_introl eq_refl)). lia.
        -- apply in_app_iff in He as [He | [<- | []]]; [| lia].
           specialize (Hmin e (or_intror He)). lia.
      * intros j e Hj He. destruct j as [| j].
        -- simpl in He. injection He as <-. specialize (Hmin g (or_introl eq_refl)). lia.
        -- simpl in He. rewrite nth_error_app1 in He by lia.
           specialize (Hmin e (or_intror (nth_error_In _ _ He))). lia.
    + exists i, k. split; [reflexivity |]. split.
      { destruct i as [| i]; simpl in Hi |- *; [exact Hi |].
        rewrite nth_error_app1; [exact Hi |].
        apply nth_error_Some. rewrite Hi. discriminate. }
      split.
      * intros e [<- | He].
        -- exact (Hmin g (or_introl eq_refl)).
        -- apply in_app_iff in He as [He | [<- | []]]; [| lia].
           exact (Hmin e (or_intror He)).
      * intros j e Hj He. apply (Hfirst j e Hj).
        destruct j as [| j]; simpl in He |- *; [exact He |].
        assert (Hlt : j < List.length t).
        { destruct i as [| i]; [lia |]. simpl in Hi.
          assert (i < List.length t) by (apply nth_error_Some; rewrite Hi; discriminate).
          lia. }
        rewrite nth_error_app1 in He by exact Hlt. exact He.
Qed.

Lemma keepShortestEntry_first_shortest_witness :
  let g := [Dedup.mkEntry (named "p1.png" "Pizza Hut Branch 2") (Dedup.LUntiered 0) 0;
            Dedup.mkEntry (named "p2.png" "Pizza Hut") (Dedup.LUntiered 1) 1;
            Dedup.mkEntry (named "p3.png" "Pizza Hut!") (Dedup.LUntiered 2) 2] in
  g <> [] /\ (forall e, In e g -> exists n, Dedup.name_length e = Some n) /\
  exists i k, Dedup.keepShortestEntry g = Some k /\ nth_error g i = Some k /\
    (forall e, In e g -> name_len k <= name_len e) /\
    (forall j e, j < i -> nth_error g j = Some e -> name_len k < name_len e).
Proof.
  intros g.
  assert (Hs : forall e, In e g -> exists n, Dedup.name_length e = Some n)
    by (intros e [<- | [<- | [<- | []]]]; eexists; reflexivity).
  split; [discriminate | split; [exact Hs |]].
  apply keepShortestEntry_first_shortest; [discriminate | exact Hs].
Defined.

(** *** Drag and drop, and the trash *)

Lemma flat_map_replace_row (l : list row) (r : nat) (rw x : row) :
  nth_error l r = Some rw ->
  flat_map row_items l =
    flat_map row_items (firstn r l) ++ row_items rw ++ flat_map row_items (skipn (S r) l) /\
  flat_map row_items (firstn r l ++ x :: skipn (S r) l) =
    flat_map row_items (firstn r l) ++ row_items x ++ flat_map row_items (skipn (S r) l).
Proof.
  intros H. split.
  - rewrite (nth_error_split_at l r rw H) at 1.
    rewrite flat_map_app. reflexivity.
  - rewrite flat_map_app. reflexivity.
Qed.

Lemma perm_middle_swap {A} (a : A) (l1 l2 l3 : list A) :
  Permutation (l1 ++ l2 ++ a :: l3) (a :: l1 ++ l2 ++ l3).
Proof.
  symmetry. rewrite (app_assoc l1 l2 (a :: _)), (app_assoc l1 l2 l3).
  apply Permutation_middle.
Qed.

Lemma set_rows_fields (d : dom) (rs : list row) :
  rows (set_rows d rs) = rs /\ pool (set_rows d rs) = pool d /\ title (set_rows d rs) = title d.
Proof. repeat split. Qed.

Lemma set_pool_fields (d : dom) (p : list pool_entry) :
  rows (set_pool d p) = rows d /\ pool (set_pool d p) = p /\ title (set_pool d p) = title d.
Proof. repeat split. Qed.

Lemma detach_items (d : dom) (c : Drag.container) (k : nat) it oir d1 :
  Drag.detach d c k = Some (it, oir, d1) ->
  Permutation (all_items d) (it :: all_items d1) /\ title d1 = title d.
Proof.
  destruct c as [r |]; unfold Drag.detach; cbv beta iota.
  - destruct (nth_error (rows d) r) as [rw |] eqn:Er; [| discriminate].
    destruct (nth_error (row_items rw) k) as [x |] eqn:Ek; [| discriminate].
    intros H. injection H as <- <- <-. split; [| reflexivity].
    change (match rows d with [] => [] | _ :: l => skipn r l end)
      with (skipn (S r) (rows d)).
    unfold all_items. destruct (set_rows_fields d
      (firstn r (rows d) ++ mkRow (row_label rw) (row_color rw) (remove_at k (row_items rw))
         :: skipn (S r) (rows d))) as (-> & -> & _).
    destruct (flat_map_replace_row (rows d) r rw
                (mkRow (row_label rw) (row_color rw) (remove_at k (row_items rw))) Er)
      as [-> ->].
    cbn [row_items]. rewrite (nth_error_split_at _ _ _ Ek) at 1. unfold remove_at.
    rewrite <- !app_assoc. simpl. apply perm_middle_swap.
  - destruct (nth_error (pool d) k) as [[x | x] |] eqn:Ek; [| | discriminate];
      intros H; injection H as <- <- <-; split; try reflexivity;
      unfold all_items, set_pool; cbn [rows pool];
      rewrite (nth_error_split_at _ _ _ Ek) at 1; unfold remove_at;
      rewrite !map_app; simpl map; apply perm_middle_swap.
Qed.

Lemma place_perm {A} (b : bool) (t : Drag.jsval) (x : A) (l : list A) :
  Permutation (Drag.place b t x l) (x :: l).
Proof.
  unfold Drag.place, insert_at.
  destruct b; [| destruct (Drag.child_index t (List.length l))].
  - symmetry. apply Permutation_cons_append.
  - symmetry. rewrite <- (firstn_skipn n l) at 1. apply Permutation_middle.
  - symmetry. apply Permutation_cons_append.
Qed.

(** X3: Dropping a grabbed item on a row or on the untiered pool never adds
    or loses an item: the page holds the same items, up to order, and
    keeps its title, whatever the drop's target. *)
Theorem drop_keeps_items (d : dom) (dragged : option (Drag.container * nat))
    (dest : Drag.container) (target_is_row : bool) (old_i tgt_i : Drag.jsval) :
  Permutation (all_items (fst (Drag.drop d dragged dest target_is_row old_i tgt_i)))
              (all_items d) /\
  title (fst (Drag.drop d dragged dest target_is_row old_i tgt_i)) = title d.
Proof.
  unfold Drag.drop.
  destruct dragged as [[c k] |]; [| split; reflexivity].
  destruct (Drag.detach d c k) as [[[it oir] d1] |] eqn:Ed; [| split; reflexivity].
  destruct (detach_items _ _ _ _ _ _ Ed) as [Hp Ht].
  set (t := Drag.adjusted_target dest oir old_i tgt_i).
  destruct dest as [r |].
  - destruct (nth_error (rows d1) r) as [rw |] eqn:Er; [| split; reflexivity].
    cbn [fst]. split; [| exact Ht].
    rewrite Hp. unfold all_items. destruct (set_rows_fields d1
      (firstn r (rows d1) ++ mkRow (row_label rw) (row_color rw)
         (Drag.place target_is_row t it (row_items rw)) :: skipn (S r) (rows d1)))
      as (-> & -> & _).
    destruct (flat_map_replace_row (rows d1) r rw
                (mkRow (row_label rw) (row_color rw)
                       (Drag.place target_is_row t it (row_items rw))) Er)
      as [-> ->].
    cbn [row_items]. rewrite (place_perm target_is_row t it (row_items rw)).
    rewrite <- !app_assoc. cbn [app]. symmetry. apply Permutation_middle.
  - cbn [fst]. split; [| exact Ht].
    rewrite Hp. unfold all_items, set_pool. cbn [rows pool].
    rewrite (Permutation_map entry_item (place_perm target_is_row t (Wrapped it) (pool d1))).
    simpl map. symmetry. apply Permutation_middle.
Qed.

(** X4: The trash removes exactly the grabbed item: when [detach] finds the
    item [it] at position [k] of [c], the page after the trash's drop
    holds every item but that one, with as many rows as before. *)
Theorem trash_drop_removes_item (d : dom) (c : Drag.container) (k : nat)
    (it : item) (oir : option Drag.parent_node) (d1 : dom) :
  Drag.detach d c k = Some (it, oir, d1) ->
  Permutation (all_items d) (it :: all_items (Trash.trash_drop d (Some (c, k)))) /\
  List.length (rows (Trash.trash_drop d (Some (c, k)))) = List.length (rows d).
Proof.
  intros H. unfold Trash.trash_drop. rewrite H.
  split; [exact (proj1 (detach_items _ _ _ _ _ _ H)) | exact (proj1 (detach_spec _ _ _ _ _ _ H))].
Qed.

Lemma trash_drop_removes_item_witness :
  Drag.detach abcd_doc (Drag.CRow 0) 1 =
    Some (itB, Some (Drag.NRowDiv 0), mkDom "T" [mkRow "S" None [itA; itC; itD]] []) /\
  Permutation (all_items abcd_doc)
              (itB :: all_items (Trash.trash_drop abcd_doc (Some (Drag.CRow 0, 1)))) /\
  List.length (rows (Trash.trash_drop abcd_doc (Some (Drag.CRow 0, 1)))) =
    List.length (rows abcd_doc).
Proof.
  split; [reflexivity |].
  apply (trash_drop_removes_item abcd_doc (Drag.CRow 0) 1 itB (Some (Drag.NRowDiv 0))
           (mkDom "T" [mkRow "S" None [itA; itC; itD]] [])).
  reflexivity.
Defined.

(** *** Resetting the rows, and images read from files *)

Lemma replace_after_prefix {A} (l1 l2 : list A) (x y : A) :
  firstn (List.length l1) (l1 ++ x :: l2) ++ y :: skipn (S (List.length l1)) (l1 ++ x :: l2)
  = l1 ++ y :: l2.
Proof. induction l1 as [| a t IH]; simpl; [reflexivity | f_equal; exact IH]. Qed.


Lemma for_each_reset_row (t : string) (done rest : list row) (p : list pool_entry) :
  for_each reset_row (seq (List.length done) (List.length rest))
           (mkDom t (map emptied done ++ rest) p)
  = Done (mkDom t (map emptied (done ++ rest)) (p ++ map Bare (flat_map row_items rest))).
Proof.
  revert done p. induction rest as [| r rest IH]; intros done p.
  - simpl. rewrite !app_nil_r. reflexivity.
  - simpl seq. simpl for_each. unfold seq_step, reset_row. cbn [rows pool title].
    rewrite nth_error_app2 by (rewrite length_map; lia).
    rewrite length_map, Nat.sub_diag. simpl nth_error.
    rewrite <- (length_map emptied done). rewrite replace_after_prefix.
    replace (S (List.length (map emptied done))) with (List.length (done ++ [r]))
      by (rewrite length_app, length_map; simpl; lia).
    replace (map emptied done ++ mkRow (row_label r) (row_color r) [] :: rest)
      with (map emptied (done ++ [r]) ++ rest)
      by (rewrite map_app, <- app_assoc; reflexivity).
    rewrite IH. rewrite <- !app_assoc. simpl. rewrite !map_app. reflexivity.
Qed.

(** X5: The "soft reset" button empties every row in place, keeping its
    label and colour, and appends all row items, in row order, to the
    end of the untiered pool as bare items. *)
Theorem soft_reset_list_result (d : dom) :
  soft_reset_list d =
  Done (mkDom (title d) (map emptied (rows d))
              (pool d ++ map Bare (flat_map row_items (rows d)))).
Proof.
  destruct d as [t rs p]. unfold soft_reset_list. cbn [rows pool title].
  exact (for_each_reset_row t [] rs p).
Qed.

Lemma ext_tail_dot (s1 s2 : string) :
  ext_tail (s1 ++ String "." s2)%string = false.
Proof.
  induction s1 as [| c s1 IH]; simpl; [reflexivity |].
  rewrite IH. apply andb_false_r.
Qed.

(** X6: An image file named [base.ext], where [ext] is non-empty and holds
    no [.] or [/], is named [base] (which may itself contain dots), and
    a file name without a dot is kept whole. *)
Theorem strip_extension_spec :
  (forall base ext, ext <> ""%string -> ext_tail ext = true ->
     strip_extension (base ++ String "." ext)%string = base) /\
  (forall s, ~ In "."%char (list_ascii_of_string s) -> strip_extension s = s).
Proof.
  split.
  - intros base ext Hne Ht. induction base as [| c b IH]; simpl.
    + destruct (String.eqb_spec ext ""); [contradiction |]. rewrite Ht. reflexivity.
    + rewrite ext_tail_dot, andb_false_r, IH. reflexivity.
  - induction s as [| c s IH]; intros H; simpl; [reflexivity |].
    simpl in H. destruct (Ascii.eqb_spec c ".").
    + subst. exfalso. apply H. left. reflexivity.
    + simpl. rewrite IH; [reflexivity |]. intros Hin. apply H. right. exact Hin.
Qed.

(** *** [get_item_index] *)

Lemma find_index_app_skip {A} (p : A -> bool) (l1 l2 : list A) :
  (forall x, In x l1 -> p x = false) ->
  Drag.find_index p (l1 ++ l2) = option_map (Nat.add (List.length l1)) (Drag.find_index p l2).
Proof.
  intros H. induction l1 as [| a t IH]; simpl.
  - destruct (Drag.find_index p l2); reflexivity.
  - rewrite (H a (or_introl eq_refl)), IH by (intros x Hx; apply H; right; exact Hx).
    destruct (Drag.find_index p l2); reflexivity.
Qed.

Lemma find_index_none {A} (p : A -> bool) (l : list A) :
  (forall x, In x l -> p x = false) -> Drag.find_index p l = None.
Proof.
  intros H. pose proof (find_index_app_skip p l [] H) as E.
  rewrite app_nil_r in E. exact E.
Qed.

Lemma seq_split_at (n k : nat) :
  k < n -> seq 0 n = seq 0 k ++ k :: seq (S k) (n - S k).
Proof.
  intros H. replace n with (k + S (n - S k)) at 1 by lia.
  rewrite seq_app. reflexivity.
Qed.

Lemma item_list_split (n k : nat) :
  k < n -> exists rest,
  Drag.item_list n = Drag.item_list k ++ Drag.EContainer k :: Drag.EImg k :: rest.
Proof.
  intros H. unfold Drag.item_list. rewrite (seq_split_at n k H), flat_map_app.
  eexists. reflexivity.
Qed.

Lemma length_item_list (k : nat) : List.length (Drag.item_list k) = 2 * k.
Proof.
  unfold Drag.item_list. induction k as [| k IH]; [reflexivity |].
  rewrite seq_S, flat_map_app, length_app, IH. simpl. lia.
Qed.

Lemma in_item_list (x : Drag.row_elem) (k : nat) :
  In x (Drag.item_list k) -> exists j, j < k /\ (x = Drag.EContainer j \/ x = Drag.EImg j).
Proof.
  unfold Drag.item_list. intros Hx. apply in_flat_map in Hx as (j & Hj & Hx).
  apply in_seq in Hj. exists j. split; [lia |].
  destruct Hx as [<- | [<- | []]]; auto.
Qed.

(** X7: [get_item_index] over a row of [n] items: the container, the image
    and (through [target_elem]) the label of item [k] give [2 * k], the
    position in the list of containers and images, while its
    [span.item] gives [k]; any element of a position [k >= n] gives
    [null]. *)
Theorem get_item_index_positions (n k : nat) :
  (k < n ->
   Drag.get_item_index n (Drag.EContainer k) = Drag.JSNum (Z.of_nat (2 * k)) /\
   Drag.get_item_index n (Drag.EImg k) = Drag.JSNum (Z.of_nat (2 * k)) /\
   Drag.get_item_index n (Drag.ESpan k) = Drag.JSNum (Z.of_nat k)) /\
  (n <= k ->
   Drag.get_item_index n (Drag.EContainer k) = Drag.JSNull /\
   Drag.get_item_index n (Drag.EImg k) = Drag.JSNull /\
   Drag.get_item_index n (Drag.ESpan k) = Drag.JSNull).
Proof.
  split.
  - intros H. destruct (item_list_split n k H) as [rest Hl].
    unfold Drag.get_item_index. rewrite Hl.
    assert (Hskip : forall elem, (elem = Drag.EContainer k \/ elem = Drag.EImg k) ->
              forall x, In x (Drag.item_list k) ->
              (Drag.row_elem_eqb x elem || Drag.contains x elem) = false).
    { intros elem He x Hx. destruct (in_item_list x k Hx) as (j & Hj & [-> | ->]);
        destruct He as [-> | ->]; unfold Drag.contains, Drag.row_elem_eqb; simpl;
        destruct (Nat.eqb_spec j k); try lia; reflexivity. }
    split; [| split].
    + rewrite (find_index_app_skip _ _ _ (Hskip _ (or_introl eq_refl))).
      rewrite length_item_list. unfold Drag.contains, Drag.row_elem_eqb; simpl.
      rewrite ?Nat.eqb_refl. simpl. f_equal. lia.
    + rewrite (find_index_app_skip _ _ _ (Hskip _ (or_intror eq_refl))).
      rewrite length_item_list. unfold Drag.contains, Drag.row_elem_eqb; simpl.
      rewrite ?Nat.eqb_refl. simpl. f_equal. lia.
    + rewrite find_index_none.
      2: { intros x Hx. apply in_app_iff in Hx as [Hx | Hx].
           - destruct (in_item_list x k Hx) as (j & _ & [-> | ->]); reflexivity.
           - destruct Hx as [<- | [<- | Hx]]; try reflexivity.
             assert (Hx' : In x (Drag.item_list n))
               by (rewrite Hl; apply in_app_iff; right; right; right; exact Hx).
             unfold Drag.item_list in Hx'.
             apply in_flat_map in Hx' as (j & _ & Hx').
             destruct Hx' as [<- | [<- | []]]; reflexivity. }
      rewrite (seq_split_at n k H), map_app.
      rewrite find_index_app_skip.
      2: { intros x Hx. apply in_map_iff in Hx as (j & <- & Hj). apply in_seq in Hj.
           unfold Drag.contains, Drag.row_elem_eqb; simpl.
           destruct (Nat.eqb_spec j k); [lia | reflexivity]. }
      rewrite length_map, length_seq. unfold Drag.contains, Drag.row_elem_eqb; simpl.
      rewrite ?Nat.eqb_refl. simpl. f_equal. lia.
  - intros H.
    assert (Hn : forall elem, In elem [Drag.EContainer k; Drag.EImg k; Drag.ESpan k] ->
              Drag.get_item_index n elem = Drag.JSNull).
    { intros elem Helem. unfold Drag.get_item_index.
      rewrite find_index_none, find_index_none; [reflexivity | |].
      - intros x Hx. apply in_map_iff in Hx as (j & <- & Hj). apply in_seq in Hj.
        destruct Helem as [<- | [<- | [<- | []]]];
          unfold Drag.contains, Drag.row_elem_eqb; simpl;
          destruct (Nat.eqb_spec j k); try lia; reflexivity.
      - intros x Hx. destruct (in_item_list x n Hx) as (j & Hj & [-> | ->]);
          destruct Helem as [<- | [<- | [<- | []]]];
          unfold Drag.contains, Drag.row_elem_eqb; simpl;
          destruct (Nat.eqb_spec j k); try lia; reflexivity. }
    split; [| split]; apply Hn; simpl; tauto.
Qed.

(** *** The "add row" buttons *)

Lemma recolor_inserted (d : dom) (idx : nat) (r : row) :
  idx <= List.length (rows d) ->
  recompute_header_colors_at idx (set_rows d (insert_at idx r (rows d))) =
  Done (set_rows d (insert_at idx (mkRow (row_label r) (Some (tier_color idx)) (row_items r))
                              (rows d))).
Proof.
  intros H. unfold recompute_header_colors_at, insert_at.
  destruct (set_rows_fields d (firstn idx (rows d) ++ r :: skipn idx (rows d)))
    as (-> & _).
  assert (Hlen : List.length (firstn idx (rows d)) = idx)
    by (rewrite length_firstn; lia).
  rewrite nth_error_app2 by lia. rewrite Hlen, Nat.sub_diag. simpl nth_error.
  pose proof (replace_after_prefix (firstn idx (rows d)) (skipn idx (rows d)) r
                (mkRow (row_label r) (Some (tier_color idx)) (row_items r))) as E.
  cbv beta iota. rewrite Hlen in E. rewrite E. reflexivity.
Qed.

(** X8: The buttons of an existing row [idx]: "add above" inserts a new row
    with an empty label right before it, and "add below" a row labelled
    with the captured name [nm] right after it; only the new row gets a
    header colour, the palette colour of its own position, and every
    other row, including the rows it pushes down, keeps its label,
    colour and items. *)
Theorem add_row_buttons (d : dom) (idx : nat) (nm : string) :
  idx < List.length (rows d) ->
  click (ClickAddAbove idx) d =
    Done (set_rows d (insert_at idx (mkRow "" (Some (tier_color idx)) []) (rows d))) /\
  click (ClickAddBelow idx nm) d =
    Done (set_rows d (insert_at (S idx) (mkRow nm (Some (tier_color (S idx))) []) (rows d))).
Proof.
  intros H. split; simpl click; unfold seq_step, add_row, modify;
    rewrite recolor_inserted by lia; reflexivity.
Qed.

Lemma add_row_buttons_witness :
  0 < List.length (rows abcd_doc) /\
  click (ClickAddAbove 0) abcd_doc =
    Done (set_rows abcd_doc (insert_at 0 (mkRow "" (Some (tier_color 0)) []) (rows abcd_doc))) /\
  click (ClickAddBelow 0 "S") abcd_doc =
    Done (set_rows abcd_doc
            (insert_at 1 (mkRow "S" (Some (tier_color 1)) []) (rows abcd_doc))).
Proof.
  split; [simpl; lia |]. apply add_row_buttons. simpl. lia.
Defined.

(** *** Loading a row without a colour *)

Lemma seq_step_done_last (f g : step) (d d' : dom) :
  (f ;; g) d = Done d' -> exists d1, g d1 = Done d'.
Proof.
  unfold seq_step. destruct (f d) as [d1 | d1]; [intros H; exists d1; exact H | discriminate].
Qed.

Lemma nth_error_mapi_from {A B} (f : nat -> A -> B) (s i : nat) (l : list A) :
  nth_error (mapi_from f s l) i = option_map (f (s + i)) (nth_error l i).
Proof.
  revert s i. induction l as [| x t IH]; intros s i; destruct i as [| i]; simpl;
    try reflexivity.
  - rewrite Nat.add_0_r. reflexivity.
  - rewrite IH. f_equal. f_equal. lia.
Qed.

(** X9: A row of the file without a ["color"] key ends its loading with
    [recompute_header_colors()] for the whole list: once it has loaded,
    every row, including the rows loaded before it with colours of their
    own, has the palette colour of its position. *)
Theorem load_row_without_color_recolors (ser_row : json) (d d' : dom) :
  get_field ser_row "color" = None ->
  load_row ser_row d = Done d' ->
  forall i r, nth_error (rows d') i = Some r -> row_color r = Some (tier_color i).
Proof.
  intros Hc H i r Hr. unfold load_row in H. rewrite Hc in H.
  destruct ser_row; try discriminate;
    apply seq_step_done_last in H as [d1 H];
    apply seq_step_done_last in H as [d2 H];
    apply seq_step_done_last in H as [d3 H];
    unfold recompute_header_colors_all, modify in H; injection H as <-;
    cbn [rows set_rows] in Hr; rewrite nth_error_mapi_from in Hr;
    destruct (nth_error (rows d3) i); cbn [option_map] in Hr; try discriminate;
    injection Hr as <-; reflexivity.
Qed.

Lemma load_row_without_color_recolors_witness :
  let ser := JObj [("name", JStr "X")] in
  get_field ser "color" = None /\
  load_row ser prior_doc = Done (state_of (load_row ser prior_doc)) /\
  forall i r, nth_error (rows (state_of (load_row ser prior_doc))) i = Some r ->
    row_color r = Some (tier_color i).
Proof.
  intros ser. split; [reflexivity | split; [reflexivity |]].
  apply (load_row_without_color_recolors ser prior_doc); reflexivity.
Defined.

(** *** [parseGroupSelection] *)


Lemma set_add_ok (n x : nat) (s : list nat) :
  x < n -> sel_ok n s -> sel_ok n (Dedup.set_add x s).
Proof.
  intros Hx [Hd Hf]. unfold Dedup.set_add.
  destruct (existsb (Nat.eqb x) s) eqn:E; [split; assumption |].
  split.
  - apply (Permutation_NoDup (Permutation_cons_append s x)). constructor; [| exact Hd].
    intros Hin. assert (existsb (Nat.eqb x) s = true) as E'
      by (apply existsb_exists; exists x; split; [exact Hin | apply Nat.eqb_refl]).
    congruence.
  - apply Forall_app. split; [exact Hf | constructor; [exact Hx | constructor]].
Qed.

Lemma fold_set_add_ok (n : nat) (l s : list nat) :
  Forall (fun i => i < n) l -> sel_ok n s ->
  sel_ok n (fold_left (fun acc i => Dedup.set_add i acc) l s).
Proof.
  revert s. induction l as [| x t IH]; intros s Hl Hs; simpl; [exact Hs |].
  inversion Hl; subst. apply IH; [assumption |]. apply set_add_ok; assumption.
Qed.

Lemma parse_part_ok (n : nat) (s : list nat) (part : string) :
  sel_ok n s -> sel_ok n (Dedup.parse_part n s part).
Proof.
  intros Hs. unfold Dedup.parse_part.
  destruct (JsString.includes part "-" || JsString.includes part ":").
  - destruct (Dedup.range_match part) as [[d1 d2] |]; [| exact Hs].
    destruct (JsString.parseInt d1) as [a |], (JsString.parseInt d2) as [b |]; try exact Hs.
    destruct ((0 <=? a - 1) && (b - 1 <? Z.of_nat n) && (a - 1 <=? b - 1))%Z eqn:E;
      [| exact Hs].
    apply andb_true_iff in E as [E E3]. apply andb_true_iff in E as [E1 E2].
    apply Z.leb_le in E1. apply Z.ltb_lt in E2. apply Z.leb_le in E3.
    apply fold_set_add_ok; [| exact Hs].
    apply Forall_forall. intros i Hi. apply in_seq in Hi. lia.
  - destruct (JsString.parseInt part) as [m |]; [| exact Hs].
    destruct ((0 <=? m - 1) && (m - 1 <? Z.of_nat n))%Z eqn:E; [| exact Hs].
    apply andb_true_iff in E as [E1 E2]. apply Z.leb_le in E1. apply Z.ltb_lt in E2.
    apply set_add_ok; [lia | exact Hs].
Qed.

Lemma insert_sorted_perm (x : nat) (l : list nat) : Permutation (Dedup.insert_sorted x l) (x :: l).
Proof.
  induction l as [| y t IH]; simpl; [reflexivity |].
  destruct (Nat.leb x y); [reflexivity |].
  rewrite IH. apply perm_swap.
Qed.

Lemma insert_sorted_sorted (x : nat) (l : list nat) :
  StronglySorted lt l -> ~ In x l -> StronglySorted lt (Dedup.insert_sorted x l).
Proof.
  induction l as [| y t IH]; intros Hs Hx; simpl.
  - repeat constructor.
  - apply StronglySorted_inv in Hs as [Ht Hy].
    destruct (Nat.leb_spec x y).
    + assert (x < y) by (destruct (Nat.eq_dec x y); [subst; exfalso; apply Hx; left; reflexivity | lia]).
      constructor; [constructor; assumption |].
      constructor; [assumption |]. eapply Forall_impl; [| exact Hy]. simpl. lia.
    + constructor.
      * apply IH; [exact Ht |]. intros Hin. apply Hx. right. exact Hin.
      * apply Forall_forall. intros z Hz.
        apply (Permutation_in _ (insert_sorted_perm x t)) in Hz as [<- | Hz]; [lia |].
        exact (proj1 (Forall_forall _ _) Hy z Hz).
Qed.

Lemma sort_numeric_perm (l : list nat) : Permutation (Dedup.sort_numeric l) l.
Proof.
  induction l as [| x t IH]; simpl; [reflexivity |].
  rewrite insert_sorted_perm, IH. reflexivity.
Qed.

Lemma sort_numeric_sorted (l : list nat) :
  NoDup l -> StronglySorted lt (Dedup.sort_numeric l).
Proof.
  induction l as [| x t IH]; intros Hd; simpl; [constructor |].
  apply NoDup_cons_iff in Hd as [Hx Ht].
  apply insert_sorted_sorted; [exact (IH Ht) |].
  intros Hin. apply Hx. exact (Permutation_in _ (sort_numeric_perm t) Hin).
Qed.

Lemma seq_sorted (s n : nat) : StronglySorted lt (seq s n).
Proof.
  revert s. induction n as [| n IH]; intros s; simpl; constructor; [apply IH |].
  apply Forall_forall. intros i Hi. apply in_seq in Hi. lia.
Qed.

(** X10: Whatever the user types, the group selection is a strictly
    increasing list (so without repetitions) of indices below
    [totalGroups]: out-of-range numbers and ranges, and repeated
    choices, are dropped. *)
Theorem parseGroupSelection_sorted_in_range (input : string) (totalGroups : nat) :
  StronglySorted lt (Dedup.parseGroupSelection input totalGroups) /\
  Forall (fun i => i < totalGroups) (Dedup.parseGroupSelection input totalGroups).
Proof.
  unfold Dedup.parseGroupSelection.
  set (trimmed := JsString.to_lower (JsString.trim input)).
  destruct (String.eqb trimmed "all" || String.eqb trimmed "a").
  - split; [apply seq_sorted |]. apply Forall_forall. intros i Hi. apply in_seq in Hi. lia.
  - destruct (String.eqb trimmed "none" || String.eqb trimmed "n" || String.eqb trimmed "");
      [split; constructor |].
    assert (Hok : sel_ok totalGroups
                    (fold_left (Dedup.parse_part totalGroups) (Dedup.split_parts trimmed) [])).
    { generalize (Dedup.split_parts trimmed). intros parts.
      assert (H0 : sel_ok totalGroups []) by (split; constructor).
      revert H0. generalize (@nil nat).
      induction parts as [| p t IH]; intros s Hs; simpl; [exact Hs |].
      apply IH. apply parse_part_ok. exact Hs. }
    destruct Hok as [Hd Hf]. split.
    + apply sort_numeric_sorted. exact Hd.
    + apply Forall_forall. intros i Hi.
      apply (Permutation_in _ (sort_numeric_perm _)) in Hi.
      exact (proj1 (Forall_forall _ _) Hf i Hi).
Qed.

Lemma split_parts_aux_spec (s : string) (cur : list ascii) :
  Forall (fun c => Dedup.is_sep c = false) cur ->
  Forall (fun p => p <> ""%string /\
                   Forall (fun c => Dedup.is_sep c = false) (list_ascii_of_string p))
         (Dedup.split_parts_aux s cur) /\
  flat_map list_ascii_of_string (Dedup.split_parts_aux s cur) =
    rev cur ++ filter (fun c => negb (Dedup.is_sep c)) (list_ascii_of_string s).
Proof.
  assert (Hemit : forall cur, Forall (fun c => Dedup.is_sep c = false) cur ->
            Forall (fun p => p <> ""%string /\
                             Forall (fun c => Dedup.is_sep c = false) (list_ascii_of_string p))
                   (Dedup.emit_part cur) /\
            flat_map list_ascii_of_string (Dedup.emit_part cur) = rev cur).
  { intros [| c t] Hc; simpl; [split; [constructor | reflexivity] |].
    rewrite list_ascii_of_string_of_list_ascii, app_nil_r. split; [| reflexivity].
    constructor; [| constructor]. split.
    - intros E. apply (f_equal list_ascii_of_string) in E.
      rewrite list_ascii_of_string_of_list_ascii in E. simpl in E.
      destruct (rev t); discriminate.
    - apply Forall_forall. intros x Hx.
      rewrite list_ascii_of_string_of_list_ascii in Hx.
      assert (Hx' : In x (c :: t)) by (apply in_rev; simpl; exact Hx).
      exact (proj1 (Forall_forall _ _) Hc x Hx'). }
  revert cur. induction s as [| c t IH]; intros cur Hc; simpl.
  - rewrite app_nil_r. exact (Hemit cur Hc).
  - destruct (Dedup.is_sep c) eqn:Ec; simpl.
    + destruct (Hemit cur Hc) as [H1 H2]. destruct (IH [] (Forall_nil _)) as [H3 H4].
      split; [apply Forall_app; split; assumption |].
      rewrite flat_map_app, H2, H4. reflexivity.
    + destruct (IH (c :: cur) (Forall_cons _ Ec Hc)) as [H1 H2]. split; [exact H1 |].
      rewrite H2. simpl. rewrite <- app_assoc. reflexivity.
Qed.

(** X11: [trimmed.split(/[,\s]+/).filter(p => p.length > 0)]: every part is
    non-empty and holds no comma or white space, and the parts, joined,
    are the input with its commas and white space taken out. *)
Theorem split_parts_spec (s : string) :
  Forall (fun p => p <> ""%string /\
                   Forall (fun c => Dedup.is_sep c = false) (list_ascii_of_string p))
         (Dedup.split_parts s) /\
  flat_map list_ascii_of_string (Dedup.split_parts s) =
    filter (fun c => negb (Dedup.is_sep c)) (list_ascii_of_string s).
Proof. exact (split_parts_aux_spec s [] (Forall_nil _)). Qed.

(** *** The add-restaurant utility *)

Lemma assoc_set_assoc_same (k : string) (v : json) (kvs : list (string * json)) :
  existsb (fun kv => String.eqb k (fst kv)) kvs = true ->
  assoc k (Dedup.set_assoc k v kvs) = Some v.
Proof.
  induction kvs as [| [k' v'] t IH]; simpl; [discriminate |].
  destruct (String.eqb_spec k k') as [-> | Hne]; simpl.
  - rewrite String.eqb_refl. reflexivity.
  - intros H. destruct (String.eqb_spec k k'); [contradiction |]. exact (IH H).
Qed.

Lemma assoc_set_assoc_other (k k2 : string) (v : json) (kvs : list (string * json)) :
  k2 <> k -> assoc k2 (Dedup.set_assoc k v kvs) = assoc k2 kvs.
Proof.
  intros Hk. induction kvs as [| [k' v'] t IH]; simpl; [reflexivity |].
  destruct (String.eqb_spec k k') as [-> | Hne]; simpl;
    destruct (String.eqb_spec k2 k'); try reflexivity; try contradiction.
  exact IH.
Qed.

Lemma assoc_app_absent (k : string) (kvs l : list (string * json)) :
  existsb (fun kv => String.eqb k (fst kv)) kvs = false ->
  assoc k (kvs ++ l) = assoc k l.
Proof.
  induction kvs as [| [k' v'] t IH]; simpl; [reflexivity |].
  destruct (String.eqb_spec k k'); [discriminate |]. exact IH.
Qed.

Lemma assoc_app_other (k k2 : string) (v : json) (kvs : list (string * json)) :
  k2 <> k -> assoc k2 (kvs ++ [(k, v)]) = assoc k2 kvs.
Proof.
  intros Hk. induction kvs as [| [k' v'] t IH]; simpl.
  - destruct (String.eqb_spec k2 k); [contradiction | reflexivity].
  - destruct (String.eqb k2 k'); [reflexivity | exact IH].
Qed.

(** [obj.k = v] then reading [k] gives [v] on an object, and leaves every
    other key as it was. *)
Lemma put_field_get (o : json) (k : string) (v : json) :
  (exists kvs, o = JObj kvs) ->
  get_field (AddRestaurant.put_field o k v) k = Some v.
Proof.
  intros [kvs ->]. simpl.
  destruct (existsb (fun kv => String.eqb k (fst kv)) kvs) eqn:E; simpl.
  - exact (assoc_set_assoc_same k v kvs E).
  - rewrite assoc_app_absent by exact E. simpl. rewrite String.eqb_refl. reflexivity.
Qed.

Lemma put_field_other (o : json) (k k2 : string) (v : json) :
  k2 <> k -> get_field (AddRestaurant.put_field o k v) k2 = get_field o k2.
Proof.
  intros Hk. destruct o as [| | | | | kvs]; try reflexivity. simpl.
  destruct (existsb (fun kv => String.eqb k (fst kv)) kvs); simpl.
  - exact (assoc_set_assoc_other k k2 v kvs Hk).
  - exact (assoc_app_other k k2 v kvs Hk).
Qed.

Lemma validate_ok (parsed data : json) :
  Dedup.validate parsed = inr data ->
  data = parsed /\ (exists kvs, parsed = JObj kvs) /\
  (exists rs, get_field parsed "rows" = Some (JArr rs)) /\
  (get_field parsed "untiered" = None \/ exists u, get_field parsed "untiered" = Some (JArr u)).
Proof.
  unfold Dedup.validate. intros H.
  destruct parsed as [| | | | l | kvs]; try discriminate H.
  destruct (get_field (JObj kvs) "rows") as [[| | | | rs |] |] eqn:Er; try discriminate H.
  destruct (get_field (JObj kvs) "untiered") as [[| | | | u |] |] eqn:Eu;
    try discriminate H; injection H as <-;
    repeat split; eauto.
Qed.

Lemma add_restaurant_write_spec (inp : AddRestaurant.add_inputs) (path : string)
    (data : json) (rest : list DedupMain.effect) :
  AddRestaurant.main inp = DedupMain.EWrite path data :: rest ->
  exists files parsed uri old,
    AddRestaurant.dir_files inp = Some files /\
    In path (AddRestaurant.getJsonFiles files) /\
    AddRestaurant.contents inp = Some parsed /\
    Dedup.validate parsed = inr parsed /\
    AddRestaurant.download inp = Some uri /\
    JsString.trim (AddRestaurant.restaurant_name inp) <> "" /\
    JsString.trim (AddRestaurant.image_url inp) <> "" /\
    (get_field parsed "untiered" = Some (JArr old) \/
     (get_field parsed "untiered" = None /\ old = [])) /\
    get_field data "untiered" =
      Some (JArr (old ++ [JObj [("src", JStr uri);
                                ("name", JStr (JsString.trim (AddRestaurant.restaurant_name inp)))]])) /\
    (forall k, k <> "untiered" -> get_field data k = get_field parsed k) /\
    rest = (if AddRestaurant.add_write_ok inp then [DedupMain.EClose] else [DedupMain.EExit 1]).
Proof.
  unfold AddRestaurant.main.
  destruct (AddRestaurant.dir_files inp) as [files |]; [| discriminate].
  destruct (AddRestaurant.getJsonFiles files) as [| f0 fs] eqn:Ef; [discriminate |].
  rewrite <- Ef.
  destruct (JsString.parseInt (AddRestaurant.file_choice inp)) as [m |]; [| discriminate].
  destruct ((m - 1 <? 0) || (Z.of_nat (List.length (AddRestaurant.getJsonFiles files)) <=? m - 1))%Z
    eqn:Eb; [discriminate |].
  destruct (String.eqb_spec (JsString.trim (AddRestaurant.restaurant_name inp)) "") as [| Hn];
    [discriminate |].
  destruct (String.eqb_spec (JsString.trim (AddRestaurant.image_url inp)) "") as [| Hu];
    [discriminate |].
  destruct (AddRestaurant.contents inp) as [parsed |]; [| discriminate].
  destruct (Dedup.validate parsed) as [err | data0] eqn:Ev; [discriminate |].
  destruct (AddRestaurant.download inp) as [uri |]; [| discriminate].
  intros H. injection H as Hpath Hdata Hrest.
  destruct (validate_ok _ _ Ev) as (-> & Hobj & _ & Hu0).
  set (nm := JsString.trim (AddRestaurant.restaurant_name inp)) in *.
  set (entry := JObj [("src", JStr uri); ("name", JStr nm)]) in *.
  assert (Hobj1 : forall o, (exists kvs, o = JObj kvs) ->
            exists kvs, AddRestaurant.put_field o "untiered" (JArr []) = JObj kvs).
  { intros o [kvs ->]. unfold AddRestaurant.put_field.
    destruct (existsb (fun kv => String.eqb "untiered" (fst kv)) kvs); eauto. }
  destruct Hu0 as [Hnone | [u Hsome]].
  - exists files, parsed, uri, []. subst path data rest.
    repeat split; try assumption; try reflexivity.
    + apply nth_In. apply orb_false_iff in Eb as [Eb1 Eb2].
      apply Z.ltb_ge in Eb1. apply Z.leb_gt in Eb2. lia.
    + right. split; [exact Hnone | reflexivity].
    + rewrite Hnone. simpl truthy. cbv iota.
      rewrite (put_field_get parsed "untiered" (JArr []) Hobj).
      apply put_field_get. exact (Hobj1 parsed Hobj).
    + intros k Hk. rewrite Hnone. simpl truthy. cbv iota.
      rewrite (put_field_get parsed "untiered" (JArr []) Hobj).
      rewrite put_field_other by exact Hk. apply put_field_other. exact Hk.
  - exists files, parsed, uri, u. subst path data rest.
    repeat split; try assumption; try reflexivity.
    + apply nth_In. apply orb_false_iff in Eb as [Eb1 Eb2].
      apply Z.ltb_ge in Eb1. apply Z.leb_gt in Eb2. lia.
    + left. exact Hsome.
    + rewrite Hsome. simpl truthy. cbv iota. rewrite Hsome.
      apply put_field_get. exact Hobj.
    + intros k Hk. rewrite Hsome. simpl truthy. cbv iota. rewrite Hsome.
      apply put_field_other. exact Hk.
Qed.

(** X12: When the add-restaurant utility writes a file, it is one of the
    [.json] files of the directory, the file parsed and passed
    validation, the image download succeeded, and the trimmed name is
    not empty; the written data is the parsed file with one more entry,
    [{src: dataUri, name: trimmedName}], at the end of its ["untiered"]
    array (a missing array counts as empty), and every other key holds
    what it held in the file.  Nothing follows the write but closing
    the prompt, or exit code 1 if the write failed. *)
Theorem add_restaurant_write (inp : AddRestaurant.add_inputs) (path : string)
    (data : json) (rest : list DedupMain.effect) :
  AddRestaurant.main inp = DedupMain.EWrite path data :: rest ->
  exists files parsed uri old,
    AddRestaurant.dir_files inp = Some files /\
    In path (AddRestaurant.getJsonFiles files) /\
    AddRestaurant.contents inp = Some parsed /\
    Dedup.validate parsed = inr parsed /\
    AddRestaurant.download inp = Some uri /\
    JsString.trim (AddRestaurant.restaurant_name inp) <> "" /\
    JsString.trim (AddRestaurant.image_url inp) <> "" /\
    (get_field parsed "untiered" = Some (JArr old) \/
     (get_field parsed "untiered" = None /\ old = [])) /\
    get_field data "untiered" =
      Some (JArr (old ++ [JObj [("src", JStr uri);
                                ("name", JStr (JsString.trim (AddRestaurant.restaurant_name inp)))]])) /\
    (forall k, k <> "untiered" -> get_field data k = get_field parsed k) /\
    rest = (if AddRestaurant.add_write_ok inp then [DedupMain.EClose] else [DedupMain.EExit 1]).
Proof. exact (add_restaurant_write_spec inp path data rest). Qed.

Lemma add_restaurant_write_witness :
  let doc := JObj [("title", JStr "T"); ("rows", JArr [])] in
  let data := JObj [("title", JStr "T"); ("rows", JArr []);
                    ("untiered", JArr [JObj [("src", JStr "data:image/png;base64,AA");
                                             ("name", JStr "KFC")]])] in
  AddRestaurant.main (add_kfc doc) =
    [DedupMain.EWrite "restaurants.json" data; DedupMain.EClose] /\
  exists files parsed uri old,
    AddRestaurant.dir_files (add_kfc doc) = Some files /\
    In "restaurants.json" (AddRestaurant.getJsonFiles files) /\
    AddRestaurant.contents (add_kfc doc) = Some parsed /\
    Dedup.validate parsed = inr parsed /\
    AddRestaurant.download (add_kfc doc) = Some uri /\
    JsString.trim (AddRestaurant.restaurant_name (add_kfc doc)) <> "" /\
    JsString.trim (AddRestaurant.image_url (add_kfc doc)) <> "" /\
    (get_field parsed "untiered" = Some (JArr old) \/
     (get_field parsed "untiered" = None /\ old = [])) /\
    get_field data "untiered" =
      Some (JArr (old ++ [JObj [("src", JStr uri);
                                ("name", JStr (JsString.trim
                                   (AddRestaurant.restaurant_name (add_kfc doc))))]])) /\
    (forall k, k <> "untiered" -> get_field data k = get_field parsed k) /\
    [DedupMain.EClose] = (if AddRestaurant.add_write_ok (add_kfc doc)
                          then [DedupMain.EClose] else [DedupMain.EExit 1]).
Proof.
  intros doc data. split; [vm_compute; reflexivity |].
  apply add_restaurant_write. vm_compute. reflexivity.
Defined.

Lemma number_from_app {A} (i : nat) (l1 l2 : list A) :
  Dedup.number_from i (l1 ++ l2) =
  Dedup.number_from i l1 ++ Dedup.number_from (i + List.length l1) l2.
Proof.
  revert i. induction l1 as [| x t IH]; intros i; simpl.
  - rewrite Nat.add_0_r. reflexivity.
  - rewrite IH. do 3 f_equal. lia.
Qed.

(** The untiered part of [collect_located]. *)
Lemma collect_located_split (doc : json) (l : list (json * Dedup.location)) :
  Dedup.collect_located doc = Some l ->
  exists r, l = r ++ match get_field doc "untiered" with
                    | Some (JArr u) =>
                        map (fun '(itemIndex, item) => (item, Dedup.LUntiered itemIndex))
                            (filter (fun p => Dedup.collectable (snd p)) (Dedup.number_from 0 u))
                    | _ => []
                    end /\
    forall doc', get_field doc' "rows" = get_field doc "rows" ->
      Dedup.collect_located doc' =
      Some (r ++ match get_field doc' "untiered" with
                 | Some (JArr u) =>
                     map (fun '(itemIndex, item) => (item, Dedup.LUntiered itemIndex))
                         (filter (fun p => Dedup.collectable (snd p)) (Dedup.number_from 0 u))
                 | _ => []
                 end).
Proof.
  unfold Dedup.collect_located.
  match goal with
  | |- (match ?F with Some r => _ | None => None end) = Some l -> _ =>
      destruct F as [r |] eqn:Er; [| discriminate]
  end.
  intros H. injection H as <-. exists r. split; [reflexivity |].
  intros doc' Hrows. rewrite Hrows, Er. reflexivity.
Qed.

(** X13: A restaurant added by the add-restaurant utility is seen by the
    duplicate finder: if the file as read gives the located entries [l],
    the written file gives [l] followed by the new entry, at position
    [n] of ["untiered"], where [n] is the length the array had. *)
Theorem added_restaurant_collected (inp : AddRestaurant.add_inputs) (parsed : json)
    (l : list (json * Dedup.location)) (path : string) (data : json)
    (rest : list DedupMain.effect) :
  AddRestaurant.contents inp = Some parsed ->
  Dedup.collect_located parsed = Some l ->
  AddRestaurant.main inp = DedupMain.EWrite path data :: rest ->
  exists uri, AddRestaurant.download inp = Some uri /\
    Dedup.collect_located data =
    Some (l ++ [(JObj [("src", JStr uri);
                       ("name", JStr (JsString.trim (AddRestaurant.restaurant_name inp)))],
                 Dedup.LUntiered (match get_field parsed "untiered" with
                                  | Some (JArr u) => List.length u
                                  | _ => 0
                                  end))]).
Proof.
  intros Hc Hl Hm.
  destruct (add_restaurant_write_spec inp path data rest Hm)
    as (files & parsed' & uri & old & _ & _ & Hc' & _ & Hd & Hn & _ & Hold & Hu & Hk & _).
  rewrite Hc in Hc'. injection Hc' as <-.
  exists uri. split; [exact Hd |].
  destruct (collect_located_split parsed l Hl) as (r & -> & Hdoc).
  rewrite (Hdoc data (Hk "rows" ltac:(discriminate))), Hu.
  rewrite number_from_app, filter_app, map_app. simpl.
  destruct (String.eqb_spec (JsString.trim (AddRestaurant.restaurant_name inp)) "") as [E | _];
    [contradiction |].
  simpl. rewrite <- app_assoc.
  destruct Hold as [Hold | [Hold ->]]; rewrite Hold; reflexivity.
Qed.

Lemma added_restaurant_collected_witness :
  let doc := pizza_doc "p1.png" "p2.png" "k.png" in
  let data := JObj [("title", JStr "Restaurants"); ("rows", JArr []);
                    ("untiered", JArr [named "p1.png" "Pizza Hut";
                                       named "p2.png" "Pizza Hut Branch 2";
                                       named "k.png" "KFC";
                                       JObj [("src", JStr "data:image/png;base64,AA");
                                             ("name", JStr "KFC")]])] in
  let l := [(named "p1.png" "Pizza Hut", Dedup.LUntiered 0);
            (named "p2.png" "Pizza Hut Branch 2", Dedup.LUntiered 1);
            (named "k.png" "KFC", Dedup.LUntiered 2)] in
  AddRestaurant.contents (add_kfc doc) = Some doc /\
  Dedup.collect_located doc = Some l /\
  AddRestaurant.main (add_kfc doc) =
    [DedupMain.EWrite "restaurants.json" data; DedupMain.EClose] /\
  exists uri, AddRestaurant.download (add_kfc doc) = Some uri /\
    Dedup.collect_located data =
    Some (l ++ [(JObj [("src", JStr uri);
                       ("name", JStr (JsString.trim
                          (AddRestaurant.restaurant_name (add_kfc doc))))],
                 Dedup.LUntiered (match get_field doc "untiered" with
                                  | Some (JArr u) => List.length u
                                  | _ => 0
                                  end))]).
Proof.
  intros doc data l.
  split; [reflexivity | split; [vm_compute; reflexivity | split; [vm_compute; reflexivity |]]].
  apply (added_restaurant_collected (add_kfc doc) doc l "restaurants.json" data
           [DedupMain.EClose]); vm_compute; reflexivity.
Defined.

(** *** [findDuplicateGroups] *)

Lemma nth_error_number_from {A} (i j : nat) (l : list A) :
  nth_error (Dedup.number_from i l) j = option_map (pair (i + j)) (nth_error l j).
Proof.
  revert i j. induction l as [| x t IH]; intros i j; destruct j as [| j]; simpl;
    try reflexivity.
  - rewrite Nat.add_0_r. reflexivity.
  - rewrite IH. f_equal. f_equal. lia.
Qed.

Lemma in_number_from {A} (i j : nat) (x : A) (l : list A) :
  In (j, x) (Dedup.number_from i l) -> i <= j /\ nth_error l (j - i) = Some x.
Proof.
  intros H. apply In_nth_error in H as [n Hn].
  rewrite nth_error_number_from in Hn.
  destruct (nth_error l n) eqn:E; simpl in Hn; [| discriminate].
  injection Hn as Hj Hx. subst j a. split; [lia |]. rewrite <- E. f_equal. lia.
Qed.

Lemma collectAllEntries_eid (doc : json) (es : list Dedup.dup_entry) :
  Dedup.collectAllEntries doc = Some es ->
  forall j e, nth_error es j = Some e -> Dedup.eid e = j.
Proof.
  unfold Dedup.collectAllEntries.
  destruct (Dedup.collect_located doc) as [l |]; [| discriminate].
  intros H. injection H as <-. intros j e He.
  rewrite nth_error_map, nth_error_number_from in He.
  destruct (nth_error l j) as [[it loc] |]; simpl in He; [| discriminate].
  injection He as <-. reflexivity.
Qed.

Section GroupInvariants.

Variable entries : list Dedup.dup_entry.
Hypothesis eid_pos : forall j e, nth_error entries j = Some e -> Dedup.eid e = j.


Lemma num_ok_self : num_ok entries (Dedup.number_from 0 entries).
Proof.
  intros j e H. apply in_number_from in H as [_ H]. rewrite Nat.sub_0_r in H. exact H.
Qed.


Lemma NoDup_snoc (l : list nat) (x : nat) : NoDup l -> ~ In x l -> NoDup (l ++ [x]).
Proof.
  intros Hd Hx. apply (Permutation_NoDup (Permutation_cons_append l x)).
  constructor; assumption.
Qed.

Lemma existsb_false_notin (x : nat) (l : list nat) :
  existsb (Nat.eqb x) l = false -> ~ In x l.
Proof.
  intros E Hin. assert (existsb (Nat.eqb x) l = true) as E'
    by (apply existsb_exists; exists x; split; [exact Hin | apply Nat.eqb_refl]).
  congruence.
Qed.

Lemma scan_inv (num : list (nat * Dedup.dup_entry)) :
  num_ok entries num ->
  forall group processed found g' p' f' R,
  Dedup.scan num group processed found = Some (g', p', f') ->
  processed = R ++ map Dedup.eid group -> NoDup processed -> members_ok entries group ->
  p' = R ++ map Dedup.eid g' /\ NoDup p' /\ members_ok entries g' /\
  List.length group <= List.length g'.
Proof.
  induction num as [| [j e] t IH]; intros Hnum group processed found g' p' f' R H Hp Hd Hm.
  - simpl in H. injection H as <- <- <-. repeat split; auto.
  - assert (Ht : num_ok entries t) by (intros j' e' Hin; apply Hnum; right; exact Hin).
    assert (He : nth_error entries j = Some e) by (apply Hnum; left; reflexivity).
    simpl in H. destruct (existsb (Nat.eqb j) processed) eqn:Ej.
    + exact (IH Ht _ _ _ _ _ _ R H Hp Hd Hm).
    + destruct (Dedup.dup_of_group group e) as [[|] |]; [| | discriminate].
      * destruct (IH Ht _ _ _ _ _ _ R H) as (H1 & H2 & H3 & H4).
        -- rewrite Hp, map_app, app_assoc. simpl. rewrite (eid_pos j e He). reflexivity.
        -- apply NoDup_snoc; [exact Hd | exact (existsb_false_notin _ _ Ej)].
        -- intros x Hx. apply in_app_iff in Hx as [Hx | [<- | []]];
             [exact (Hm x Hx) | exact (nth_error_In _ _ He)].
        -- rewrite length_app in H4. repeat split; auto. lia.
      * exact (IH Ht _ _ _ _ _ _ R H Hp Hd Hm).
Qed.

Lemma grow_inv (num : list (nat * Dedup.dup_entry)) :
  num_ok entries num ->
  forall fuel group processed g' p' R,
  Dedup.grow fuel num group processed = Some (g', p') ->
  processed = R ++ map Dedup.eid group -> NoDup processed -> members_ok entries group ->
  p' = R ++ map Dedup.eid g' /\ NoDup p' /\ members_ok entries g' /\
  List.length group <= List.length g'.
Proof.
  intros Hnum fuel. induction fuel as [| f IH]; intros group processed g' p' R H Hp Hd Hm.
  - simpl in H. injection H as <- <-. repeat split; auto.
  - simpl in H.
    destruct (Dedup.scan num group processed false) as [[[g1 p1] found] |] eqn:Es;
      [| discriminate].
    destruct (scan_inv num Hnum _ _ _ _ _ _ R Es Hp Hd Hm) as (H1 & H2 & H3 & H4).
    destruct found.
    + destruct (IH _ _ _ _ R H H1 H2 H3) as (H5 & H6 & H7 & H8).
      repeat split; auto. lia.
    + injection H as <- <-. repeat split; auto.
Qed.


Lemma fold_groups_none (F : option (list (list Dedup.dup_entry) * list nat) ->
                            nat * Dedup.dup_entry ->
                            option (list (list Dedup.dup_entry) * list nat))
  (l : list (nat * Dedup.dup_entry)) :
  (forall x, F None x = None) -> fold_left F l None = None.
Proof. intros HF. induction l as [| x t IH]; simpl; [reflexivity | rewrite HF; exact IH]. Qed.

Lemma fold_groups_inv (num : list (nat * Dedup.dup_entry)) (fuel : nat) :
  num_ok entries num ->
  forall l st res, num_ok entries l ->
  fold_left (fun acc '(i, e) =>
         match acc with
         | Some (groups, processed) =>
             if existsb (Nat.eqb i) processed then Some (groups, processed)
             else match Dedup.grow fuel num [e] (processed ++ [i]) with
                  | Some (group, processed') =>
                      Some (if Nat.ltb 1 (List.length group) then groups ++ [group] else groups,
                            processed')
                  | None => None
                  end
         | None => None
         end) l (Some st) = Some res ->
  groups_ok entries st -> groups_ok entries res.
Proof.
  intros Hnum l. induction l as [| [i e] t IH]; intros [groups processed] res Hl H Hst.
  - simpl in H. injection H as <-. exact Hst.
  - assert (Ht : num_ok entries t) by (intros j' e' Hin; apply Hl; right; exact Hin).
    assert (He : nth_error entries i = Some e) by (apply Hl; left; reflexivity).
    simpl in H. destruct Hst as (Hd & [Q HQ] & Hg).
    destruct (existsb (Nat.eqb i) processed) eqn:Ei.
    + apply (IH _ _ Ht H). split; [exact Hd | split; [exists Q; exact HQ | exact Hg]].
    + destruct (Dedup.grow fuel num [e] (processed ++ [i])) as [[group p'] |] eqn:Eg.
      2: { rewrite fold_groups_none in H; [discriminate | intros [? ?]; reflexivity]. }
      destruct (grow_inv num Hnum fuel [e] (processed ++ [i]) group p' processed Eg)
        as (H1 & H2 & H3 & H4).
      * simpl. rewrite (eid_pos i e He). reflexivity.
      * apply NoDup_snoc; [exact Hd | exact (existsb_false_notin _ _ Ei)].
      * intros x [<- | []]. exact (nth_error_In _ _ He).
      * apply (IH _ _ Ht H). split; [exact H2 |]. subst p'.
        destruct (Nat.ltb_spec 1 (List.length group)).
        -- split.
           ++ exists Q. rewrite HQ, List.concat_app, !map_app. simpl. rewrite app_nil_r.
              rewrite <- !app_assoc. apply Permutation_app_head. apply Permutation_app_comm.
           ++ intros g Hin. apply in_app_iff in Hin as [Hin | [<- | []]];
                [exact (Hg g Hin) | split; [lia | exact H3]].
        -- split; [| exact Hg].
           exists (Q ++ map Dedup.eid group). rewrite HQ. rewrite app_assoc. reflexivity.
Qed.

End GroupInvariants.

(** X14: For the entries [collectAllEntries] gathers from a file,
    [findDuplicateGroups] returns groups of at least two entries of the
    file, and no entry is in two groups or twice in one group. *)
Theorem findDuplicateGroups_disjoint (doc : json) (es : list Dedup.dup_entry)
    (groups : list (list Dedup.dup_entry)) :
  Dedup.collectAllEntries doc = Some es ->
  Dedup.findDuplicateGroups es = Some groups ->
  (forall g, In g groups -> 2 <= List.length g /\ forall e, In e g -> In e es) /\
  NoDup (map Dedup.eid (List.concat groups)).
Proof.
  intros Hc Hf. pose proof (collectAllEntries_eid doc es Hc) as Hpos.
  unfold Dedup.findDuplicateGroups in Hf.
  match type of Hf with
  | (match ?F with Some r => _ | None => None end) = Some groups =>
      destruct F as [[gs ps] |] eqn:Ef; [| discriminate]
  end.
  simpl in Hf. injection Hf as <-.
  destruct (fold_groups_inv es Hpos _ _ (num_ok_self es) _ _ _ (num_ok_self es) Ef)
    as (Hd & [Q HQ] & Hg).
  { split; [constructor | split; [exists []; reflexivity | intros g []]]. }
  split; [exact Hg |].
  apply (Permutation_NoDup HQ) in Hd. apply NoDup_app_remove_r in Hd. exact Hd.
Qed.

Lemma findDuplicateGroups_disjoint_witness :
  let doc := pizza_doc "p1.png" "p2.png" "k.png" in
  let e0 := Dedup.mkEntry (named "p1.png" "Pizza Hut") (Dedup.LUntiered 0) 0 in
  let e1 := Dedup.mkEntry (named "p2.png" "Pizza Hut Branch 2") (Dedup.LUntiered 1) 1 in
  let e2 := Dedup.mkEntry (named "k.png" "KFC") (Dedup.LUntiered 2) 2 in
  Dedup.collectAllEntries doc = Some [e0; e1; e2] /\
  Dedup.findDuplicateGroups [e0; e1; e2] = Some [[e0; e1]] /\
  (forall g, In g [[e0; e1]] -> 2 <= List.length g /\ forall e, In e g -> In e [e0; e1; e2]) /\
  NoDup (map Dedup.eid (List.concat [[e0; e1]])).
Proof.
  intros doc e0 e1 e2. split; [reflexivity | split; [reflexivity |]].
  apply (findDuplicateGroups_disjoint doc); reflexivity.
Defined.

(** *** [removeDuplicatesFromTierlist] *)

Lemma assoc_some_existsb (k : string) (kvs : list (string * json)) (w : json) :
  assoc k kvs = Some w -> existsb (fun kv => String.eqb k (fst kv)) kvs = true.
Proof.
  induction kvs as [| [k' v'] t IH]; simpl; [discriminate |].
  destruct (String.eqb k k'); [reflexivity | exact IH].
Qed.

Lemma set_field_same (o : json) (k : string) (v w : json) :
  get_field o k = Some w -> get_field (Dedup.set_field o k v) k = Some v.
Proof.
  destruct o as [| | | | | kvs]; try discriminate. simpl. intros H.
  exact (assoc_set_assoc_same k v kvs (assoc_some_existsb k kvs w H)).
Qed.

Lemma set_field_other (o : json) (k k2 : string) (v : json) :
  k2 <> k -> get_field (Dedup.set_field o k v) k2 = get_field o k2.
Proof.
  intros Hk. destruct o as [| | | | | kvs]; try reflexivity.
  exact (assoc_set_assoc_other k k2 v kvs Hk).
Qed.

(** Setting [k] only where it holds an array leaves the other keys. *)
Lemma set_if_array_other (o : json) (k k2 : string) (f : list json -> json) :
  k2 <> k ->
  get_field (match get_field o k with
             | Some (JArr l) => Dedup.set_field o k (f l)
             | _ => o
             end) k2 = get_field o k2.
Proof.
  intros Hk. destruct (get_field o k) as [[| | | | l |] |]; try reflexivity.
  apply set_field_other. exact Hk.
Qed.

Lemma drop_marked_subseq (marked : list Dedup.location) (mk : nat -> Dedup.location)
    (i : nat) (l : list json) :
  subseq (map snd (filter (fun '(i, _) => negb (existsb (Dedup.location_eqb (mk i)) marked))
                          (Dedup.number_from i l))) l.
Proof.
  revert i. induction l as [| x t IH]; intros i; simpl; [constructor |].
  destruct (negb (existsb (Dedup.location_eqb (mk i)) marked)); simpl.
  - constructor. apply IH.
  - constructor. apply IH.
Qed.

Lemma length_number_from {A} (i : nat) (l : list A) :
  List.length (Dedup.number_from i l) = List.length l.
Proof. revert i. induction l as [| x t IH]; intros i; simpl; [reflexivity | f_equal; apply IH]. Qed.

(** X15: Removing duplicates only leaves entries out: every key of the file
    other than ["rows"] and ["untiered"] is kept, the ["untiered"] array
    becomes a subsequence of itself, and the ["rows"] array keeps its
    rows, in order, each with all its keys but ["imgs"] unchanged and
    its ["imgs"] array a subsequence of itself. *)
Theorem removeDuplicates_only_removes (doc doc' : json) (groups : list (list Dedup.dup_entry)) :
  Dedup.removeDuplicatesFromTierlist doc groups = Some doc' ->
  (forall k, k <> "rows" -> k <> "untiered" -> get_field doc' k = get_field doc k) /\
  (forall u, get_field doc "untiered" = Some (JArr u) ->
     exists u', get_field doc' "untiered" = Some (JArr u') /\ subseq u' u) /\
  (forall rs, get_field doc "rows" = Some (JArr rs) ->
     exists rs', get_field doc' "rows" = Some (JArr rs') /\
       List.length rs' = List.length rs /\
       forall i r, nth_error rs i = Some r ->
         exists r', nth_error rs' i = Some r' /\
           (forall k, k <> "imgs" -> get_field r' k = get_field r k) /\
           (forall imgs, get_field r "imgs" = Some (JArr imgs) ->
              exists imgs', get_field r' "imgs" = Some (JArr imgs') /\ subseq imgs' imgs)).
Proof.
  unfold Dedup.removeDuplicatesFromTierlist.
  match goal with
  | |- (match ?F with Some m => _ | None => None end) = Some doc' -> _ =>
      destruct F as [marked |]; [| discriminate]
  end.
  intros H. injection H as <-.
  assert (Hru : "rows" <> "untiered") by discriminate.
  assert (Hur : "untiered" <> "rows") by discriminate.
  split; [| split].
  - intros k Hk1 Hk2. rewrite set_if_array_other by exact Hk2.
    apply set_if_array_other. exact Hk1.
  - intros u Hu.
    match goal with
    | |- exists u', get_field (match get_field ?d1 "untiered" with _ => _ end) _ = _ /\ _ =>
        assert (Hd1 : get_field d1 "untiered" = Some (JArr u))
          by (destruct (get_field doc "rows") as [[| | | | rs |] |]; try exact Hu;
              rewrite set_field_other by exact Hur; exact Hu);
        rewrite Hd1
    end.
    eexists. split; [exact (set_field_same _ _ _ _ Hd1) |]. apply drop_marked_subseq.
  - intros rs Hrs. rewrite set_if_array_other by exact Hru. rewrite Hrs.
    eexists. split; [exact (set_field_same _ _ _ _ Hrs) |]. split.
    + rewrite length_map, length_number_from. reflexivity.
    + intros i r Hr. rewrite nth_error_map, nth_error_number_from, Hr. simpl.
      eexists. split; [reflexivity |]. split.
      * intros k Hk. apply set_if_array_other. exact Hk.
      * intros imgs Himgs. rewrite Himgs. eexists.
        split; [exact (set_field_same _ _ _ _ Himgs) | apply drop_marked_subseq].
Qed.

Lemma removeDuplicates_only_removes_witness :
  let doc := pizza_doc "p1.png" "p2.png" "k.png" in
  let e0 := Dedup.mkEntry (named "p1.png" "Pizza Hut") (Dedup.LUntiered 0) 0 in
  let e1 := Dedup.mkEntry (named "p2.png" "Pizza Hut Branch 2") (Dedup.LUntiered 1) 1 in
  let doc' := JObj [("title", JStr "Restaurants"); ("rows", JArr []);
                    ("untiered", JArr [named "p1.png" "Pizza Hut"; named "k.png" "KFC"])] in
  Dedup.removeDuplicatesFromTierlist doc [[e0; e1]] = Some doc' /\
  (forall k, k <> "rows" -> k <> "untiered" -> get_field doc' k = get_field doc k) /\
  (forall u, get_field doc "untiered" = Some (JArr u) ->
     exists u', get_field doc' "untiered" = Some (JArr u') /\ subseq u' u) /\
  (forall rs, get_field doc "rows" = Some (JArr rs) ->
     exists rs', get_field doc' "rows" = Some (JArr rs') /\
       List.length rs' = List.length rs /\
       forall i r, nth_error rs i = Some r ->
         exists r', nth_error rs' i = Some r' /\
           (forall k, k <> "imgs" -> get_field r' k = get_field r k) /\
           (forall imgs, get_field r "imgs" = Some (JArr imgs) ->
              exists imgs', get_field r' "imgs" = Some (JArr imgs') /\ subseq imgs' imgs)).
Proof.
  intros doc e0 e1 doc'. split; [reflexivity |].
  apply (removeDuplicates_only_removes doc doc' [[e0; e1]]). reflexivity.
Defined.

End Extras.
